(** * GPX anonymizer: [calculate_distance] and [anonymize_gpx] of main.py

    The two functions of main.py that carry the geometry are embedded
    here.  Python's [float] and the functions of the [math] module are
    kept behind the interface [PyFloat], so that every definition reads
    like the source and every structural property is proved for all
    arithmetics at once.  The instance [RFloat] interprets the interface
    in the real numbers: it is the spherical-Earth model in exact
    arithmetic, in which [math.sqrt] and [math.asin] still raise outside
    their domains.  The rounding of binary floating point is not
    modelled: what is proved of [RFloat] is proved of the formulas, and
    what depends on rounding is stated over the interface. *)

From Stdlib Require Import Reals RNsatz Lra Lia Psatz List String ZArith Bool.
Import ListNotations.

Set Implicit Arguments.

(** ** Exceptions and results *)

(** The exceptions the body of [anonymize_gpx] can raise. *)
Inductive exn : Type :=
| ValueError (msg : string)
| IndexError (msg : string).

(** [str(e)] *)
Definition str (e : exn) : string :=
  match e with
  | ValueError msg => msg
  | IndexError msg => msg
  end.

(** [fastapi.HTTPException(status_code=..., detail=...)] *)
Record HTTPException : Type := mkHTTPException {
  status_code : Z;
  detail : string
}.

Inductive result (E A : Type) : Type :=
| Ok (a : A)
| Raise (e : E).

Arguments Ok {E A} a.
Arguments Raise {E A} e.

Definition bind {E A B : Type} (m : result E A) (k : A -> result E B)
  : result E B :=
  match m with
  | Ok a => k a
  | Raise e => Raise e
  end.

Declare Scope py_monad_scope.
Delimit Scope py_monad_scope with pym.
Notation "x <- m ;; k" := (bind m (fun x => k))
  (at level 61, m at next level, right associativity) : py_monad_scope.
Notation "' pat <- m ;; k" := (bind m (fun x => match x with pat => k end))
  (at level 61, pat pattern, m at next level, right associativity)
  : py_monad_scope.

Definition math_domain_error : exn := ValueError "math domain error".
Definition list_index_error : exn := IndexError "list index out of range".

(** A [math] function that raises [ValueError] outside its domain. *)
Definition domain {A : Type} (o : option A) : result exn A :=
  match o with
  | Some v => Ok v
  | None => Raise math_domain_error
  end.

(** [l[i]] *)
Definition index {A : Type} (l : list A) (i : nat) : result exn A :=
  match nth_error l i with
  | Some x => Ok x
  | None => Raise list_index_error
  end.

(** The list after [l[i] = v], for [i] in range. *)
Fixpoint replace_nth {A : Type} (l : list A) (i : nat) (v : A) : list A :=
  match l, i with
  | [], _ => []
  | _ :: t, O => v :: t
  | h :: t, S j => h :: replace_nth t j v
  end.

(** [l[i].attr = ...]: the object at [i] is fetched, then updated in place. *)
Definition update_at {A : Type} (l : list A) (i : nat) (f : A -> A)
  : result exn (list A) :=
  bind (index l i) (fun x => Ok (replace_nth l i (f x))).

(** [range(n)] *)
Definition range (n : nat) : list nat := seq 0 n.

(** [for i in idx: s = body(i, s)], stopping at the first exception. *)
Fixpoint for_each {S : Type} (idx : list nat)
    (body : nat -> S -> result exn S) (s : S) : result exn S :=
  match idx with
  | [] => Ok s
  | i :: rest => bind (body i s) (for_each rest body)
  end.

(** ** Floats and the [math] module *)

Class PyFloat (F : Type) : Type := {
  of_int : Z -> F;                (* an [int] literal used as a float *)
  fadd : F -> F -> F;
  fsub : F -> F -> F;
  fmul : F -> F -> F;
  fdiv : F -> F -> F;
  fpow2 : F -> F;                 (* [x**2] *)
  truthy : F -> bool;             (* [bool(x)]: false exactly for zero *)
  math_sin : F -> F;
  math_cos : F -> F;
  math_atan2 : F -> F -> F;
  math_sqrt : F -> option F;      (* [None]: ValueError, math domain error *)
  math_asin : F -> option F;      (* [None]: ValueError, math domain error *)
  math_radians : F -> F;
  math_degrees : F -> F
}.

Declare Scope py_scope.
Delimit Scope py_scope with py.
Notation "x + y" := (fadd x y) : py_scope.
Notation "x - y" := (fsub x y) : py_scope.
Notation "x * y" := (fmul x y) : py_scope.
Notation "x / y" := (fdiv x y) : py_scope.

(** ** The data model of gpxpy, as far as main.py reads and writes it *)

Section Model.

Context {F : Type} {PF : PyFloat F}.

Record GPXTrackPoint : Type := mkPoint {
  latitude : F;
  longitude : F;
  elevation : option F            (* [None] when the file gives none *)
}.

Record GPXTrackSegment : Type := mkSegment {
  points : list GPXTrackPoint
}.

Record GPXTrack : Type := mkTrack {
  segments : list GPXTrackSegment
}.

Record GPX : Type := mkGPX {
  tracks : list GPXTrack
}.

Definition set_latitude (v : F) (p : GPXTrackPoint) : GPXTrackPoint :=
  mkPoint v (longitude p) (elevation p).

Definition set_longitude (v : F) (p : GPXTrackPoint) : GPXTrackPoint :=
  mkPoint (latitude p) v (elevation p).

Definition set_elevation (v : option F) (p : GPXTrackPoint) : GPXTrackPoint :=
  mkPoint (latitude p) (longitude p) v.

Local Open Scope py_scope.
Local Open Scope py_monad_scope.

(** ** [calculate_distance] (main.py, lines 54-66) *)

(** The value [a] of the Haversine formula, from the four angles already
    in radians (line 62). *)
Definition haversine_a (lat1 lon1 lat2 lon2 : F) : F :=
  let dlat := lat2 - lat1 in
  let dlon := lon2 - lon1 in
  fpow2 (math_sin (dlat / of_int 2))
  + math_cos lat1 * math_cos lat2 * fpow2 (math_sin (dlon / of_int 2)).

Definition calculate_distance (lat1 lon1 lat2 lon2 : F) : result exn F :=
  let R := of_int 6371 in
  let lat1 := math_radians lat1 in
  let lon1 := math_radians lon1 in
  let lat2 := math_radians lat2 in
  let lon2 := math_radians lon2 in
  let a := haversine_a lat1 lon1 lat2 lon2 in
  r <- domain (math_sqrt a) ;;
  s <- domain (math_asin r) ;;
  let c := of_int 2 * s in
  let distance := R * c in
  Ok distance.

(** ** [anonymize_gpx] (main.py, lines 68-179) *)

(** Lines 101-106: the initial bearing from [p1] to [p2]. *)
Definition leg_bearing (p1 p2 : GPXTrackPoint) : F :=
  let lat1 := math_radians (latitude p1) in
  let lon1 := math_radians (longitude p1) in
  let lat2 := math_radians (latitude p2) in
  let lon2 := math_radians (longitude p2) in
  let dlon := lon2 - lon1 in
  let y := math_sin dlon * math_cos lat2 in
  let x := math_cos lat1 * math_sin lat2
           - math_sin lat1 * math_cos lat2 * math_cos dlon in
  math_atan2 y x.

(** Line 85: [p.elevation if p.elevation else 0]. *)
Definition elevation_or_0 (p : GPXTrackPoint) : F :=
  match elevation p with
  | Some e => if truthy e then e else of_int 0
  | None => of_int 0
  end.

Definition original_point (p : GPXTrackPoint) : F * F * F :=
  (latitude p, longitude p, elevation_or_0 p).

(** The three lists the first loop appends to. *)
Record Metrics : Type := mkMetrics {
  original_distances : list F;    (* meters *)
  segment_distances : list F;     (* kilometers *)
  segment_bearings : list F       (* radians *)
}.

(** Lines 93-107: one turn of the loop over the original legs. *)
Definition metrics_step (pts : list GPXTrackPoint) (i : nat) (m : Metrics)
  : result exn Metrics :=
  p1 <- index pts i ;;
  p2 <- index pts (i + 1) ;;
  dist <- calculate_distance (latitude p1) (longitude p1)
                             (latitude p2) (longitude p2) ;;
  let bearing := leg_bearing p1 p2 in
  Ok (mkMetrics (original_distances m ++ [dist * of_int 1000])
                (segment_distances m ++ [dist])
                (segment_bearings m ++ [bearing])).

(** Lines 131-134: the latitude of the destination point. *)
Definition destination_lat (prev_lat angular_dist bearing : F)
  : result exn F :=
  domain (math_asin
    (math_sin prev_lat * math_cos angular_dist
     + math_cos prev_lat * math_sin angular_dist * math_cos bearing)).

(** Lines 136-139: the longitude of the destination point. *)
Definition destination_lon (prev_lat prev_lon angular_dist bearing new_lat : F)
  : F :=
  prev_lon
  + math_atan2
      (math_sin bearing * math_sin angular_dist * math_cos prev_lat)
      (math_cos angular_dist - math_sin prev_lat * math_sin new_lat).

(** Lines 120-145: one turn of the reconstruction loop; [pts] is the
    list [segment.points], whose objects the loop rewrites in place. *)
Definition reconstruct_step (m : Metrics) (original_points : list (F * F * F))
    (i : nat) (pts : list GPXTrackPoint) : result exn (list GPXTrackPoint) :=
  let EARTH_RADIUS := of_int 6371000 in
  d <- index (segment_distances m) i ;;
  let dist := d * of_int 1000 in
  bearing <- index (segment_bearings m) i ;;
  p <- index pts i ;;
  let prev_lat := math_radians (latitude p) in
  let prev_lon := math_radians (longitude p) in
  let angular_dist := dist / EARTH_RADIUS in
  new_lat <- destination_lat prev_lat angular_dist bearing ;;
  let new_lon :=
    destination_lon prev_lat prev_lon angular_dist bearing new_lat in
  pts <- update_at pts (i + 1) (set_latitude (math_degrees new_lat)) ;;
  pts <- update_at pts (i + 1) (set_longitude (math_degrees new_lon)) ;;
  o <- index original_points (i + 1) ;;
  update_at pts (i + 1) (set_elevation (Some (snd o))).

(** Lines 150-152: one turn of the verification loop. *)
Definition verify_step (pts : list GPXTrackPoint) (i : nat)
    (anonymized_distances : list F) : result exn (list F) :=
  p1 <- index pts i ;;
  p2 <- index pts (i + 1) ;;
  dist <- calculate_distance (latitude p1) (longitude p1)
                             (latitude p2) (longitude p2) ;;
  Ok (anonymized_distances ++ [dist * of_int 1000]).

(** Python's [sum]: it starts from the integer 0 and adds from the left. *)
Definition sum (l : list F) : F := fold_left fadd l (of_int 0).

(** The body of the [try] block.  The parsed file is the argument; the
    result is the GPX object as it stands when [to_xml] is called on it,
    with the two totals.  The log messages of lines 157-173 read the
    distances and change nothing. *)
Definition anonymize_body (gpx : GPX) : result exn (GPX * F * F) :=
  match tracks gpx with
  | [] => Raise (ValueError "No tracks found in GPX file")
  | track :: other_tracks =>
    match segments track with
    | [] => Raise (ValueError "No segments found in track")
    | segment :: other_segments =>
      match points segment with
      | [] => Raise (ValueError "No points found in segment")
      | _ :: _ =>
        let original_points := map original_point (points segment) in
        m <- for_each (range (List.length (points segment) - 1))
               (metrics_step (points segment)) (mkMetrics [] [] []) ;;
        let original_distance := sum (segment_distances m) in
        pts <- update_at (points segment) 0 (set_latitude (of_int 0)) ;;
        pts <- update_at pts 0 (set_longitude (of_int 0)) ;;
        pts <- for_each (range (List.length (segment_distances m)))
                 (reconstruct_step m original_points) pts ;;
        anonymized_distances <-
          for_each (range (List.length pts - 1)) (verify_step pts) [] ;;
        let anonymized_distance :=
          sum (map (fun d => d / of_int 1000) anonymized_distances) in
        Ok (mkGPX (mkTrack (mkSegment pts :: other_segments) :: other_tracks),
            original_distance, anonymized_distance)
      end
    end
  end.

(** Lines 177-179: every exception becomes an [HTTPException] 400. *)
Definition anonymize_gpx (gpx : GPX) : result HTTPException (GPX * F * F) :=
  match anonymize_body gpx with
  | Ok r => Ok r
  | Raise e =>
    Raise (mkHTTPException 400
             ("Error processing GPX file: " ++ str e)%string)
  end.

(** ** The loops by recursion on the list of points

    The three loops walk [segment.points] by index.  The functions below
    compute the same results by recursion on the list; the proofs go
    through them (see [anonymize_body_unfold]). *)

(** First loop: distance (km) and bearing of each original leg. *)
Fixpoint leg_metrics (pts : list GPXTrackPoint) : result exn (list (F * F)) :=
  match pts with
  | [] => Ok []
  | p1 :: rest =>
    match rest with
    | [] => Ok []
    | p2 :: _ =>
      dist <- calculate_distance (latitude p1) (longitude p1)
                                 (latitude p2) (longitude p2) ;;
      ms <- leg_metrics rest ;;
      Ok ((dist, leg_bearing p1 p2) :: ms)
    end
  end.

Definition metrics_of (ms : list (F * F)) : Metrics :=
  mkMetrics (map (fun m => fst m * of_int 1000) ms) (map fst ms) (map snd ms).

(** The point the reconstruction loop leaves at index [i + 1], from the
    point [prev] it left at index [i], the original point [q] at index
    [i + 1] and the leg's metrics. *)
Definition next_point (prev q : GPXTrackPoint) (d bearing : F)
  : result exn GPXTrackPoint :=
  let prev_lat := math_radians (latitude prev) in
  let prev_lon := math_radians (longitude prev) in
  let angular_dist := d * of_int 1000 / of_int 6371000 in
  new_lat <- destination_lat prev_lat angular_dist bearing ;;
  let new_lon :=
    destination_lon prev_lat prev_lon angular_dist bearing new_lat in
  Ok (mkPoint (math_degrees new_lat) (math_degrees new_lon)
              (Some (elevation_or_0 q))).

(** Second loop: the points after [prev], rebuilt one after the other. *)
Fixpoint walk (prev : GPXTrackPoint) (rest : list GPXTrackPoint)
    (ms : list (F * F)) : result exn (list GPXTrackPoint) :=
  match rest, ms with
  | q :: rest', (d, bearing) :: ms' =>
    q' <- next_point prev q d bearing ;;
    r <- walk q' rest' ms' ;;
    Ok (q' :: r)
  | _, _ => Ok rest
  end.

(** The first point after lines 113-114. *)
Definition at_origin (p : GPXTrackPoint) : GPXTrackPoint :=
  set_longitude (of_int 0) (set_latitude (of_int 0) p).

(** [anonymize_body] on the points of the first segment. *)
Definition anonymize_points (p0 : GPXTrackPoint) (rest : list GPXTrackPoint)
  : result exn (list GPXTrackPoint * F * F) :=
  ms <- leg_metrics (p0 :: rest) ;;
  r <- walk (at_origin p0) rest ms ;;
  ms' <- leg_metrics (at_origin p0 :: r) ;;
  Ok (at_origin p0 :: r,
      sum (map fst ms),
      sum (map (fun d => d / of_int 1000)
               (map (fun m => fst m * of_int 1000) ms'))).

(** The points of the first segment of the first track, if any. *)
Definition first_segment_points (gpx : GPX) : list GPXTrackPoint :=
  match tracks gpx with
  | [] => []
  | track :: _ =>
    match segments track with
    | [] => []
    | segment :: _ => points segment
    end
  end.

(** The segments of the first track after its first one. *)
Definition other_segments (gpx : GPX) : list GPXTrackSegment :=
  match tracks gpx with
  | [] => []
  | track :: _ => tl (segments track)
  end.

(** ** The clamp the specification asks for

    [calculate_distance] with [a] clamped to the interval from 0 to 1
    before the square root; [clamp01] is the arithmetic's
    [min(1, max(0, a))].  main.py has no such step. *)
Definition calculate_distance_clamped (clamp01 : F -> F)
    (lat1 lon1 lat2 lon2 : F) : result exn F :=
  let R := of_int 6371 in
  let lat1 := math_radians lat1 in
  let lon1 := math_radians lon1 in
  let lat2 := math_radians lat2 in
  let lon2 := math_radians lon2 in
  let a := clamp01 (haversine_a lat1 lon1 lat2 lon2) in
  r <- domain (math_sqrt a) ;;
  s <- domain (math_asin r) ;;
  let c := of_int 2 * s in
  let distance := R * c in
  Ok distance.

(** ** The errors [anonymize_gpx] signals *)

(** The three failures of lines 73-82, as they leave the function. *)
Definition no_tracks_failure : HTTPException :=
  mkHTTPException 400
    "Error processing GPX file: No tracks found in GPX file".

Definition no_segments_failure : HTTPException :=
  mkHTTPException 400
    "Error processing GPX file: No segments found in track".

Definition no_points_failure : HTTPException :=
  mkHTTPException 400
    "Error processing GPX file: No points found in segment".

Definition validation_failure (e : HTTPException) : Prop :=
  e = no_tracks_failure \/ e = no_segments_failure \/ e = no_points_failure.

(** A [ValueError] of [math.sqrt] or [math.asin], as it leaves the
    function. *)
Definition computation_error : HTTPException :=
  mkHTTPException 400 "Error processing GPX file: math domain error".

(** No tracks, or no segments in the first track, or no points in its
    first segment. *)
Definition structurally_empty (gpx : GPX) : Prop :=
  tracks gpx = []
  \/ (exists track rest, tracks gpx = track :: rest /\ segments track = [])
  \/ (exists track rest segment rest',
        tracks gpx = track :: rest /\ segments track = segment :: rest'
        /\ points segment = []).

End Model.

Arguments GPXTrackPoint F : clear implicits.
Arguments GPXTrackSegment F : clear implicits.
Arguments GPXTrack F : clear implicits.
Arguments GPX F : clear implicits.
Arguments Metrics F : clear implicits.

(** ** Exact arithmetic: the spherical-Earth model *)

Local Open Scope R_scope.

(** [math.atan2(y, x)]: the angle of the point [(x, y)], in the interval
    from [-PI] (excluded) to [PI]; 0 at the origin. *)
Definition atan2 (y x : R) : R :=
  if Rlt_dec 0 x then atan (y / x)
  else if Rlt_dec x 0 then
    if Rle_dec 0 y then atan (y / x) + PI else atan (y / x) - PI
  else if Rlt_dec 0 y then PI / 2
  else if Rlt_dec y 0 then - (PI / 2)
  else 0.

(** [math.sqrt] raises on negative numbers. *)
Definition checked_sqrt (x : R) : option R :=
  if Rlt_dec x 0 then None else Some (sqrt x).

(** [math.asin] raises outside the interval from -1 to 1. *)
Definition checked_asin (x : R) : option R :=
  if Rle_dec (-1) x then
    if Rle_dec x 1 then Some (asin x) else None
  else None.

Definition radians (x : R) : R := x * (PI / 180).
Definition degrees (x : R) : R := x * (180 / PI).

Definition nonzero (x : R) : bool :=
  if Req_dec_T x 0 then false else true.

#[export] Instance RFloat : PyFloat R := {|
  of_int := IZR;
  fadd := Rplus;
  fsub := Rminus;
  fmul := Rmult;
  fdiv := Rdiv;
  fpow2 := fun x => x ^ 2;
  truthy := nonzero;
  math_sin := sin;
  math_cos := cos;
  math_atan2 := atan2;
  math_sqrt := checked_sqrt;
  math_asin := checked_asin;
  math_radians := radians;
  math_degrees := degrees
|}.

(** An arithmetic that is exact but for [math.sin], which errs upwards by
    the relative amount [2^-52] (one unit in the last place of a binary64
    float). *)
Definition ulp52 : R := / 2 ^ 52.

Definition sin_overshoot (x : R) : R := sin x * (1 + ulp52).

Definition OvershootFloat : PyFloat R := {|
  of_int := IZR;
  fadd := Rplus;
  fsub := Rminus;
  fmul := Rmult;
  fdiv := Rdiv;
  fpow2 := fun x => x ^ 2;
  truthy := nonzero;
  math_sin := sin_overshoot;
  math_cos := cos;
  math_atan2 := atan2;
  math_sqrt := checked_sqrt;
  math_asin := checked_asin;
  math_radians := radians;
  math_degrees := degrees
|}.

(** [min(1, max(0, a))] on the reals. *)
Definition clamp01 (a : R) : R := Rmin 1 (Rmax 0 a).

(** A point of the data model: latitude and longitude in their ranges. *)
Definition valid_point (p : GPXTrackPoint R) : Prop :=
  -90 <= latitude p <= 90 /\ -180 <= longitude p <= 180.

(** The initial bearing from [(lat1, lon1)] to [(lat2, lon2)], all in
    radians: [leg_bearing] without the conversion. *)
Definition bearing_rad (lat1 lon1 lat2 lon2 : R) : R :=
  atan2 (sin (lon2 - lon1) * cos lat2)
        (cos lat1 * sin lat2 - sin lat1 * cos lat2 * cos (lon2 - lon1)).

(** A GPX file with one track of one segment. *)
Definition one_segment (pts : list (GPXTrackPoint R)) : GPX R :=
  mkGPX [mkTrack [mkSegment pts]].

(** ** The geometry of a leg, in radians *)

Definition central_cos (lat1 lon1 lat2 lon2 : R) : R :=
  sin lat1 * sin lat2 + cos lat1 * cos lat2 * cos (lon2 - lon1).

(** The central angle of a leg, as [calculate_distance] computes it. *)
Definition central_angle (lat1 lon1 lat2 lon2 : R) : R :=
  2 * asin (sqrt (haversine_a (PF := RFloat)
                    (radians lat1) (radians lon1)
                    (radians lat2) (radians lon2))).

Definition dest_lat (lat1 delta theta : R) : R :=
  asin (sin lat1 * cos delta + cos lat1 * sin delta * cos theta).

Definition dest_dlon (lat1 delta theta : R) : R :=
  atan2 (sin theta * sin delta * cos lat1)
        (cos delta - sin lat1 * sin (dest_lat lat1 delta theta)).

Definition lat_in_range (p : GPXTrackPoint R) : Prop :=
  - (PI / 2) <= radians (latitude p) <= PI / 2.

(** The angular distance the reconstruction loop derives from a leg's
    distance in kilometers. *)
Definition angular_dist (d : R) : R := d * 1000 / 6371000.

Definition leg_angle (o1 o2 : GPXTrackPoint R) : R :=
  central_angle (latitude o1) (longitude o1) (latitude o2) (longitude o2).

(** The leg between indices [i] and [i + 1]: [a1] and [a2] are the
    rebuilt points, [o1] and [o2] the original ones. *)
Definition leg_rebuilt (o1 o2 a1 a2 : GPXTrackPoint R) : Prop :=
  lat_in_range a1
  /\ next_point a1 o2 (6371 * leg_angle o1 o2) (leg_bearing o1 o2) = Ok a2.

(** The three points of the specification's scenario. *)
Definition paris_track : list (GPXTrackPoint R) :=
  [mkPoint 48.8566 2.3522 (Some 35); mkPoint 48.8570 2.3530 (Some 40);
   mkPoint 48.8580 2.3540 (Some 42)].

(** A file with two tracks; the first has two segments, the first of
    them with a single point. *)
Definition two_tracks : GPX R :=
  mkGPX [mkTrack [mkSegment [mkPoint 48.8566 2.3522 (Some 35)];
                  mkSegment [mkPoint 48.8570 2.3530 (Some 40);
                             mkPoint 48.8580 2.3540 None]];
         mkTrack [mkSegment [mkPoint 10 20 (Some 5)]]].

(** Four points on the equator, a quarter turn apart. *)
Definition equator_track : list (GPXTrackPoint R) :=
  [mkPoint 0 (-90) None; mkPoint 0 0 None; mkPoint 0 90 None;
   mkPoint 0 180 None].

(** From the equator to the north pole and back to the equator. *)
Definition pole_track : list (GPXTrackPoint R) :=
  [mkPoint 0 0 None; mkPoint 90 0 None; mkPoint 0 90 None].

(** ** The verification pass and its log (main.py, lines 147-173) *)

(** What the verification pass needs of the floats beyond [PyFloat]. *)
Class PyFloatOrd (F : Type) : Type := {
  fabs : F -> F;                  (* [abs(x)] *)
  fgt : F -> F -> bool;           (* [x > y] *)
  float_0_001 : F                 (* the literal [0.001] *)
}.

(** What the logger is given, without the formatting of the text. *)
Inductive log_record (F : Type) : Type :=
| SegmentMismatch (i : nat) (diff orig anon : F)       (* warning, line 164 *)
| MaximumDifference (max_diff : F)                     (* info, line 167 *)
| TotalMismatch (original anonymized difference : F)   (* warning, line 171 *)
| ProcessingError (msg : string).                      (* error, line 178 *)

Arguments SegmentMismatch {F} i diff orig anon.
Arguments MaximumDifference {F} max_diff.
Arguments TotalMismatch {F} original anonymized difference.
Arguments ProcessingError {F} msg.

(** [enumerate(l)] *)
Definition enumerate {A : Type} (l : list A) : list (nat * A) :=
  combine (seq 0 (List.length l)) l.

Section Logged.

Context {F : Type} {PF : PyFloat F} {PO : PyFloatOrd F}.

Local Open Scope py_scope.
Local Open Scope py_monad_scope.

(** Lines 160-165: one turn of the loop over the pairs of distances. *)
Definition precision_step (s : F * list (log_record F))
    (x : nat * (F * F)) : F * list (log_record F) :=
  let '(max_diff, log) := s in
  let '(i, (orig, anon)) := x in
  let diff := fabs (orig - anon) in
  let max_diff := if fgt diff max_diff then diff else max_diff in
  let log :=
    if fgt diff (of_int 1)
    then (log ++ [SegmentMismatch i diff orig anon])%list
    else log in
  (max_diff, log).

(** Lines 158-165. *)
Definition verify_precision (original_distances anonymized_distances : list F)
  : F * list (log_record F) :=
  fold_left precision_step
    (enumerate (combine original_distances anonymized_distances))
    (of_int 0, []).

(** Lines 157-173: what is logged once the verification loop is done. *)
Definition precision_log (original_distances anonymized_distances : list F)
    (original_distance anonymized_distance : F) : list (log_record F) :=
  let '(max_diff, log) :=
    verify_precision original_distances anonymized_distances in
  let log := (log ++ [MaximumDifference max_diff])%list in
  if fgt (fabs (anonymized_distance - original_distance)) float_0_001
  then (log ++ [TotalMismatch
                  (original_distance * of_int 1000)
                  (anonymized_distance * of_int 1000)
                  (fabs (anonymized_distance - original_distance)
                   * of_int 1000)])%list
  else log.

(** The body of the [try] block with its log. *)
Definition anonymize_body_logged (gpx : GPX F)
  : result exn (GPX F * F * F * list (log_record F)) :=
  match tracks gpx with
  | [] => Raise (ValueError "No tracks found in GPX file")
  | track :: other_tracks =>
    match segments track with
    | [] => Raise (ValueError "No segments found in track")
    | segment :: other_segments =>
      match points segment with
      | [] => Raise (ValueError "No points found in segment")
      | _ :: _ =>
        let original_points := map original_point (points segment) in
        m <- for_each (range (List.length (points segment) - 1))
               (metrics_step (points segment)) (mkMetrics [] [] []) ;;
        let original_distance := sum (segment_distances m) in
        pts <- update_at (points segment) 0 (set_latitude (of_int 0)) ;;
        pts <- update_at pts 0 (set_longitude (of_int 0)) ;;
        pts <- for_each (range (List.length (segment_distances m)))
                 (reconstruct_step m original_points) pts ;;
        anonymized_distances <-
          for_each (range (List.length pts - 1)) (verify_step pts) [] ;;
        let anonymized_distance :=
          sum (map (fun d => d / of_int 1000) anonymized_distances) in
        let log :=
          precision_log (original_distances m) anonymized_distances
            original_distance anonymized_distance in
        Ok (mkGPX (mkTrack (mkSegment pts :: other_segments) :: other_tracks),
            original_distance, anonymized_distance, log)
      end
    end
  end.

(** [anonymize_gpx] with what it logs. *)
Definition anonymize_gpx_logged (gpx : GPX F)
  : result HTTPException (GPX F * F * F) * list (log_record F) :=
  match anonymize_body_logged gpx with
  | Ok (r, log) => (Ok r, log)
  | Raise e =>
    (Raise (mkHTTPException 400
              ("Error processing GPX file: " ++ str e)%string),
     [ProcessingError ("Error processing GPX file: " ++ str e)%string])
  end.

End Logged.

(** [x > y] on the reals. *)
Definition Rgtb (x y : R) : bool := if Rlt_dec y x then true else false.

#[export] Instance ROrd : PyFloatOrd R := {|
  fabs := Rabs;
  fgt := Rgtb;
  float_0_001 := 0.001
|}.

(** ** The two endpoints (main.py, lines 181-268) *)

(** [s.endswith(suffix)] *)
Definition endswith (s suffix : string) : bool :=
  let n := String.length s in
  let m := String.length suffix in
  (m <=? n)%nat && String.eqb (substring (n - m) m s) suffix.

(** What a handler's [try] block can raise: an [HTTPException] of the
    code itself, or an exception of a library, kept as its [str]. *)
Inductive raised : Type :=
| RaisedHTTP (e : HTTPException)
| RaisedOther (msg : string).

Section Endpoints.

Context {F : Type} {PF : PyFloat F}.

(** The libraries the handlers call.  The upload has a file name, and
    reading it and writing the temporary file are taken to succeed. *)
Variable parse : string -> result string (GPX F).
  (* [gpxpy.parse]; the error is [str(e)] *)
Variable to_xml : GPX F -> string.
  (* [gpx.to_xml()] *)
Variable decode : list Byte.byte -> result string string.
  (* [content.decode('utf-8')]; the error is [str(e)] *)
Variable str_http : HTTPException -> string.
  (* [str(e)] of an [HTTPException] *)
Variable splitext_root : string -> string.
  (* [os.path.splitext(name)[0]] *)

(** [anonymize_gpx] on the text of the file (lines 68-179): the parser
    runs inside the [try] block, and the result is serialized. *)
Definition anonymize_gpx_text (gpx_data : string)
  : result HTTPException (string * F * F) :=
  match parse gpx_data with
  | Raise msg =>
    Raise (mkHTTPException 400 ("Error processing GPX file: " ++ msg)%string)
  | Ok gpx =>
    match anonymize_gpx gpx with
    | Ok (gpx', original_distance, anonymized_distance) =>
      Ok (to_xml gpx', original_distance, anonymized_distance)
    | Raise e => Raise e
    end
  end.

Record AnonymizedGPXResponse : Type := mkResponse {
  gpx_data : string;
  original_distance : F;
  anonymized_distance : F;
  processing_time : F
}.

(** [FileResponse(path, media_type=..., filename=...)], with the text
    written to the temporary file at [path]. *)
Record FileResponse : Type := mkFileResponse {
  path : string;
  media_type : string;
  filename : string;
  written : string
}.

Definition str_raised (e : raised) : string :=
  match e with
  | RaisedHTTP e => str_http e
  | RaisedOther msg => msg
  end.

(** Lines 190-200 and 229-239: the steps the two handlers share. *)
Definition upload (name : string) (content : list Byte.byte)
  : result raised (string * F * F) :=
  if endswith name ".gpx" then
    match decode content with
    | Raise msg => Raise (RaisedOther msg)
    | Ok gpx_data =>
      match anonymize_gpx_text gpx_data with
      | Raise e => Raise (RaisedHTTP e)
      | Ok r => Ok r
      end
    end
  else Raise (RaisedHTTP (mkHTTPException 400 "File must be a GPX file")).

(** Lines 216-218 and 266-268: [except Exception as e]. *)
Definition internal_error {A : Type} (r : result raised A)
  : result HTTPException A :=
  match r with
  | Ok a => Ok a
  | Raise e => Raise (mkHTTPException 500 (str_raised e))
  end.

(** [anonymize_gpx_file] (lines 182-218); [elapsed] is the time the
    clock gives for the request. *)
Definition anonymize_gpx_file (name : string) (content : list Byte.byte)
    (elapsed : F) : result HTTPException AnonymizedGPXResponse :=
  internal_error
    (bind (upload name content) (fun r =>
       Ok (mkResponse (fst (fst r)) (snd (fst r)) (snd r) elapsed))).

(** [anonymize_gpx_file_download] (lines 221-268); [temp_file_path] is
    the name the temporary file is given. *)
Definition anonymize_gpx_file_download (name : string)
    (content : list Byte.byte) (temp_file_path : string)
  : result HTTPException FileResponse :=
  internal_error
    (bind (upload name content) (fun r =>
       let original_filename := splitext_root name in
       let output_filename :=
         (original_filename ++ "_anonymized.gpx")%string in
       Ok (mkFileResponse temp_file_path "application/gpx+xml"
             output_filename (fst (fst r))))).

End Endpoints.

(** ** Positions, shifted tracks and poles *)

(** Latitude and longitude, without the elevation. *)
Definition position {F : Type} (p : GPXTrackPoint F) : F * F :=
  (latitude p, longitude p).

(** [p] moved east by [c] degrees. *)
Definition shift_longitude (c : R) (p : GPXTrackPoint R) : GPXTrackPoint R :=
  mkPoint (latitude p) (longitude p + c) (elevation p).

(** Neither pole. *)
Definition off_pole (p : GPXTrackPoint R) : Prop :=
  latitude p <> 90 /\ latitude p <> -90.

(** ** More inputs for the examples *)

(** The scenario's points without their elevations. *)
Definition paris_bare : list (GPXTrackPoint R) :=
  [mkPoint 48.8566 2.3522 None; mkPoint 48.8570 2.3530 None;
   mkPoint 48.8580 2.3540 None].

(** Two antipodal points of the equator. *)
Definition antipodal_track : list (GPXTrackPoint R) :=
  [mkPoint 0 0 None; mkPoint 0 180 None].

(** Stand-ins for the libraries: a parser that knows one file, a
    serializer, a decoder and the text of an [HTTPException]. *)
Definition one_point_parser (gpx_data : string) : result string (GPX R) :=
  Ok (one_segment [mkPoint 48.8566 2.3522 (Some 35)]).

(** A parser for a file without tracks. *)
Definition empty_file_parser (gpx_data : string) : result string (GPX R) :=
  Ok (mkGPX []).

Definition constant_xml (gpx : GPX R) : string := "<gpx/>".

Definition ascii_decode (content : list Byte.byte) : result string string :=
  Ok (string_of_list_byte content).

Definition detail_only (e : HTTPException) : string := detail e.

Definition drop_extension (name : string) : string :=
  substring 0 (String.length name - 4) name.

(** * Proofs *)

(** ** The result monad and the loop combinator *)

Lemma bind_Ok_inv {E A B : Type} (m : result E A) (k : A -> result E B) b :
  bind m k = Ok b -> exists a, m = Ok a /\ k a = Ok b.
Proof.
  destruct m as [a | e]; simpl; intros H; [ | discriminate H ].
  exists a. split; [ reflexivity | exact H ].
Qed.

Lemma bind_Raise_inv {E A B : Type} (m : result E A) (k : A -> result E B) e :
  bind m k = Raise e ->
  m = Raise e \/ exists a, m = Ok a /\ k a = Raise e.
Proof.
  destruct m as [a | e']; simpl; intros H.
  - right. exists a. split; [ reflexivity | exact H ].
  - left. injection H as ->. reflexivity.
Qed.

Lemma bind_assoc {E A B C : Type} (m : result E A)
    (k : A -> result E B) (h : B -> result E C) :
  bind (bind m k) h = bind m (fun a => bind (k a) h).
Proof. destruct m; reflexivity. Qed.

Lemma bind_ext {E A B : Type} (m : result E A) (k k' : A -> result E B) :
  (forall a, k a = k' a) -> bind m k = bind m k'.
Proof. intros H. destruct m; simpl; [ apply H | reflexivity ]. Qed.

Lemma index_cons_S {A : Type} (x : A) l i : index (x :: l) (S i) = index l i.
Proof. reflexivity. Qed.

Lemma update_at_cons_S {A : Type} (x : A) l i f :
  update_at (x :: l) (S i) f = bind (update_at l i f) (fun r => Ok (x :: r)).
Proof.
  unfold update_at. rewrite index_cons_S.
  destruct (index l i); reflexivity.
Qed.

Lemma for_each_shift {S : Type} (body body' : nat -> S -> result exn S) :
  (forall i s, body (Datatypes.S i) s = body' i s) ->
  forall n k s,
    for_each (seq (Datatypes.S k) n) body s = for_each (seq k n) body' s.
Proof.
  intros Hb n. induction n as [ | n IH ]; intros k s; simpl.
  - reflexivity.
  - rewrite Hb. apply bind_ext. intros a. apply IH.
Qed.

Lemma for_each_head {S : Type} (body body' : nat -> S -> result exn S) :
  (forall i s, body (Datatypes.S i) s = body' i s) ->
  forall n s,
    for_each (seq 0 (Datatypes.S n)) body s
    = bind (body 0%nat s) (for_each (seq 0 n) body').
Proof.
  intros Hb n s. simpl. apply bind_ext. intros a.
  apply for_each_shift. exact Hb.
Qed.

Lemma for_each_under_cons {A : Type}
    (body body' : nat -> list A -> result exn (list A)) (x : A) :
  (forall i s, body (S i) (x :: s) = bind (body' i s) (fun r => Ok (x :: r))) ->
  forall n k s,
    for_each (seq (S k) n) body (x :: s)
    = bind (for_each (seq k n) body' s) (fun r => Ok (x :: r)).
Proof.
  intros Hb n. induction n as [ | n IH ]; intros k s; simpl.
  - reflexivity.
  - rewrite Hb, !bind_assoc. apply bind_ext. intros a. simpl. apply IH.
Qed.

(** ** The loops of [anonymize_gpx], for every arithmetic *)

Section Loops.

Context {F : Type} {PF : PyFloat F}.

Local Open Scope py_scope.

Lemma metrics_step_cons (p : GPXTrackPoint F) pts i m :
  metrics_step (p :: pts) (S i) m = metrics_step pts i m.
Proof. reflexivity. Qed.

Lemma verify_step_cons (p : GPXTrackPoint F) pts i acc :
  verify_step (p :: pts) (S i) acc = verify_step pts i acc.
Proof. reflexivity. Qed.

Lemma leg_metrics_cons2 (p1 p2 : GPXTrackPoint F) rest :
  leg_metrics (p1 :: p2 :: rest)
  = bind (calculate_distance (latitude p1) (longitude p1)
                             (latitude p2) (longitude p2)) (fun dist =>
    bind (leg_metrics (p2 :: rest)) (fun ms =>
    Ok ((dist, leg_bearing p1 p2) :: ms))).
Proof. reflexivity. Qed.

Lemma metrics_loop (pts : list (GPXTrackPoint F)) : forall m,
  for_each (range (List.length pts - 1)) (metrics_step pts) m
  = bind (leg_metrics pts) (fun ms =>
      Ok (mkMetrics
            (original_distances m ++ map (fun x => fst x * of_int 1000) ms)
            (segment_distances m ++ map fst ms)
            (segment_bearings m ++ map snd ms))).
Proof.
  unfold range.
  induction pts as [ | p1 rest IH ]; intros m.
  - simpl. rewrite !app_nil_r. destruct m; reflexivity.
  - destruct rest as [ | p2 rest ].
    + simpl. rewrite !app_nil_r. destruct m; reflexivity.
    + replace (List.length (p1 :: p2 :: rest) - 1)%nat
        with (S (List.length (p2 :: rest) - 1))
        by (simpl; lia).
      rewrite (for_each_head _ (metrics_step (p2 :: rest)))
        by (intros; apply metrics_step_cons).
      unfold metrics_step at 1. cbn [index nth_error Nat.add].
      rewrite leg_metrics_cons2.
      cbn [bind].
      destruct (calculate_distance (latitude p1) (longitude p1)
                  (latitude p2) (longitude p2)) as [ dist | e ];
        [ | reflexivity ].
      cbn [bind]. rewrite IH.
      destruct (leg_metrics (p2 :: rest)) as [ ms | e ]; [ | reflexivity ].
      cbn [bind map fst snd original_distances segment_distances
           segment_bearings].
      rewrite <- !app_assoc. reflexivity.
Qed.

Lemma verify_loop (pts : list (GPXTrackPoint F)) : forall acc,
  for_each (range (List.length pts - 1)) (verify_step pts) acc
  = bind (leg_metrics pts) (fun ms =>
      Ok (acc ++ map (fun x => fst x * of_int 1000) ms)).
Proof.
  unfold range.
  induction pts as [ | p1 rest IH ]; intros acc.
  - simpl. rewrite app_nil_r. reflexivity.
  - destruct rest as [ | p2 rest ].
    + simpl. rewrite app_nil_r. reflexivity.
    + replace (List.length (p1 :: p2 :: rest) - 1)%nat
        with (S (List.length (p2 :: rest) - 1))
        by (simpl; lia).
      rewrite (for_each_head _ (verify_step (p2 :: rest)))
        by (intros; apply verify_step_cons).
      unfold verify_step at 1. cbn [index nth_error Nat.add].
      rewrite leg_metrics_cons2.
      cbn [bind].
      destruct (calculate_distance (latitude p1) (longitude p1)
                  (latitude p2) (longitude p2)) as [ dist | e ];
        [ | reflexivity ].
      cbn [bind]. rewrite IH.
      destruct (leg_metrics (p2 :: rest)) as [ ms | e ]; [ | reflexivity ].
      cbn [bind map fst]. rewrite <- app_assoc. reflexivity.
Qed.

Lemma leg_metrics_length (pts : list (GPXTrackPoint F)) : forall ms,
  leg_metrics pts = Ok ms -> List.length ms = (List.length pts - 1)%nat.
Proof.
  induction pts as [ | p1 rest IH ]; intros ms H.
  - injection H as <-. reflexivity.
  - destruct rest as [ | p2 rest ].
    + injection H as <-. reflexivity.
    + rewrite leg_metrics_cons2 in H.
      apply bind_Ok_inv in H. destruct H as (dist & _ & H).
      apply bind_Ok_inv in H. destruct H as (ms' & Hms' & H).
      injection H as <-. apply IH in Hms'. simpl in *. lia.
Qed.

Lemma reconstruct_step_0 (p q : GPXTrackPoint F) rest d b ms o ops :
  reconstruct_step (metrics_of ((d, b) :: ms))
      (o :: original_point q :: ops) 0 (p :: q :: rest)
  = bind (next_point p q d b) (fun q' => Ok (p :: q' :: rest)).
Proof.
  unfold reconstruct_step, next_point.
  cbn [metrics_of map fst snd segment_distances segment_bearings
       index nth_error bind Nat.add].
  destruct (destination_lat _ _ _) as [ new_lat | e ]; reflexivity.
Qed.

Lemma reconstruct_step_cons (p : GPXTrackPoint F) pts d b ms o ops i :
  reconstruct_step (metrics_of ((d, b) :: ms)) (o :: ops) (S i) (p :: pts)
  = bind (reconstruct_step (metrics_of ms) ops i pts)
      (fun r => Ok (p :: r)).
Proof.
  unfold reconstruct_step.
  cbn [metrics_of map fst snd segment_distances segment_bearings Nat.add].
  rewrite !index_cons_S.
  destruct (index (map fst ms) i) as [ d' | e ]; [ | reflexivity ].
  cbn [bind].
  destruct (index (map snd ms) i) as [ b' | e ]; [ | reflexivity ].
  cbn [bind].
  destruct (index pts i) as [ p' | e ]; [ | reflexivity ].
  cbn [bind].
  destruct (destination_lat _ _ _) as [ new_lat | e ]; [ | reflexivity ].
  cbn [bind].
  rewrite update_at_cons_S.
  destruct (update_at pts (i + 1) _) as [ pts1 | e ]; [ | reflexivity ].
  cbn [bind]. rewrite update_at_cons_S.
  destruct (update_at pts1 (i + 1) _) as [ pts2 | e ]; [ | reflexivity ].
  cbn [bind].
  destruct (index ops (i + 1)) as [ o' | e ]; [ | reflexivity ].
  cbn [bind]. rewrite update_at_cons_S. reflexivity.
Qed.

Lemma reconstruct_loop : forall ms rest (p : GPXTrackPoint F) o,
  (List.length ms <= List.length rest)%nat ->
  for_each (range (List.length ms))
    (reconstruct_step (metrics_of ms) (o :: map original_point rest))
    (p :: rest)
  = bind (walk p rest ms) (fun r => Ok (p :: r)).
Proof.
  unfold range.
  induction ms as [ | [d b] ms IH ]; intros rest p o Hlen.
  - destruct rest; reflexivity.
  - destruct rest as [ | q rest ]; [ simpl in Hlen; lia | ].
    cbn [List.length seq for_each map].
    rewrite reconstruct_step_0. rewrite bind_assoc.
    cbn [walk].
    rewrite bind_assoc. apply bind_ext. intros q'. cbn [bind].
    rewrite (for_each_under_cons _
               (reconstruct_step (metrics_of ms)
                  (original_point q :: map original_point rest)))
      by (intros; apply reconstruct_step_cons).
    rewrite IH by (simpl in Hlen; lia).
    rewrite !bind_assoc. reflexivity.
Qed.

(** [anonymize_body] without its loops. *)
Theorem anonymize_body_unfold (gpx : GPX F) :
  anonymize_body gpx =
  match tracks gpx with
  | [] => Raise (ValueError "No tracks found in GPX file")
  | track :: other_tracks =>
    match segments track with
    | [] => Raise (ValueError "No segments found in track")
    | segment :: other_segs =>
      match points segment with
      | [] => Raise (ValueError "No points found in segment")
      | p0 :: rest =>
        bind (anonymize_points p0 rest) (fun r =>
          Ok (mkGPX (mkTrack (mkSegment (fst (fst r)) :: other_segs)
                       :: other_tracks),
              snd (fst r), snd r))
      end
    end
  end.
Proof.
  unfold anonymize_body.
  destruct (tracks gpx) as [ | track other_tracks ]; [ reflexivity | ].
  destruct (segments track) as [ | segment other_segs ]; [ reflexivity | ].
  destruct (points segment) as [ | p0 rest ]; [ reflexivity | ].
  rewrite metrics_loop. unfold anonymize_points.
  rewrite !bind_assoc.
  destruct (leg_metrics (p0 :: rest)) as [ ms | e ] eqn:Hms;
    [ | reflexivity ].
  cbn [bind original_distances segment_distances segment_bearings app
       update_at index nth_error replace_nth].
  change (mkMetrics _ _ _) with (metrics_of ms).
  cbn [map].
  change (set_longitude (of_int 0) (set_latitude (of_int 0) p0))
    with (at_origin p0).
  rewrite length_map, reconstruct_loop
    by (apply leg_metrics_length in Hms; simpl in Hms; lia).
  rewrite !bind_assoc.
  destruct (walk (at_origin p0) rest ms) as [ r | e ]; [ | reflexivity ].
  cbn [bind]. rewrite verify_loop.
  rewrite !bind_assoc.
  destruct (leg_metrics (at_origin p0 :: r)) as [ ms' | e ];
    [ | reflexivity ].
  reflexivity.
Qed.

End Loops.

(** ** What holds in every arithmetic *)

Section Structure.

Context {F : Type} {PF : PyFloat F}.

Local Open Scope py_scope.

Lemma domain_raises {A : Type} (o : option A) e :
  domain o = Raise e -> e = math_domain_error.
Proof. destruct o; simpl; congruence. Qed.

Lemma calculate_distance_raises (lat1 lon1 lat2 lon2 : F) e :
  calculate_distance lat1 lon1 lat2 lon2 = Raise e -> e = math_domain_error.
Proof.
  unfold calculate_distance. intros H.
  apply bind_Raise_inv in H. destruct H as [ H | (r & _ & H) ].
  - apply (domain_raises _ H).
  - apply bind_Raise_inv in H. destruct H as [ H | (x & _ & H) ].
    + apply (domain_raises _ H).
    + discriminate H.
Qed.

Lemma leg_metrics_raises (pts : list (GPXTrackPoint F)) e :
  leg_metrics pts = Raise e -> e = math_domain_error.
Proof.
  induction pts as [ | p1 rest IH ]; [ discriminate | ].
  destruct rest as [ | p2 rest ]; [ discriminate | ].
  rewrite leg_metrics_cons2. intros H.
  apply bind_Raise_inv in H. destruct H as [ H | (d & _ & H) ].
  - apply (calculate_distance_raises _ _ _ _ H).
  - apply bind_Raise_inv in H. destruct H as [ H | (ms & _ & H) ].
    + apply (IH H).
    + discriminate H.
Qed.

Lemma next_point_raises (prev q : GPXTrackPoint F) d b e :
  next_point prev q d b = Raise e -> e = math_domain_error.
Proof.
  unfold next_point, destination_lat. intros H.
  apply bind_Raise_inv in H. destruct H as [ H | (x & _ & H) ].
  - apply (domain_raises _ H).
  - discriminate H.
Qed.

Lemma walk_raises : forall rest ms (prev : GPXTrackPoint F) e,
  walk prev rest ms = Raise e -> e = math_domain_error.
Proof.
  induction rest as [ | q rest IH ]; intros ms prev e H.
  - discriminate H.
  - destruct ms as [ | [d b] ms ]; [ discriminate H | ].
    cbn [walk] in H.
    apply bind_Raise_inv in H. destruct H as [ H | (q' & _ & H) ].
    + apply (next_point_raises _ _ _ _ H).
    + apply bind_Raise_inv in H. destruct H as [ H | (r & _ & H) ].
      * apply (IH _ _ _ H).
      * discriminate H.
Qed.

Lemma anonymize_points_raises (p0 : GPXTrackPoint F) rest e :
  anonymize_points p0 rest = Raise e -> e = math_domain_error.
Proof.
  unfold anonymize_points. intros H.
  apply bind_Raise_inv in H. destruct H as [ H | (ms & _ & H) ].
  { apply (leg_metrics_raises _ H). }
  apply bind_Raise_inv in H. destruct H as [ H | (r & _ & H) ].
  { apply (walk_raises _ _ _ H). }
  apply bind_Raise_inv in H. destruct H as [ H | (ms' & _ & H) ].
  { apply (leg_metrics_raises _ H). }
  discriminate H.
Qed.

Lemma anonymize_points_Ok (p0 : GPXTrackPoint F) rest pts od ad :
  anonymize_points p0 rest = Ok (pts, od, ad) ->
  exists ms r,
    leg_metrics (p0 :: rest) = Ok ms
    /\ walk (at_origin p0) rest ms = Ok r
    /\ pts = at_origin p0 :: r
    /\ od = sum (map fst ms).
Proof.
  unfold anonymize_points. intros H.
  apply bind_Ok_inv in H. destruct H as (ms & Hms & H).
  apply bind_Ok_inv in H. destruct H as (r & Hr & H).
  apply bind_Ok_inv in H. destruct H as (ms' & Hms' & H).
  injection H as <- <- <-.
  exists ms, r. repeat split; assumption.
Qed.

(** The shape of a successful call. *)
Lemma anonymize_gpx_Ok (gpx gpx' : GPX F) od ad :
  anonymize_gpx gpx = Ok (gpx', od, ad) ->
  exists track other_tracks segment other_segs p0 rest pts,
    tracks gpx = track :: other_tracks
    /\ segments track = segment :: other_segs
    /\ points segment = p0 :: rest
    /\ anonymize_points p0 rest = Ok (pts, od, ad)
    /\ gpx' = mkGPX (mkTrack (mkSegment pts :: other_segs) :: other_tracks).
Proof.
  unfold anonymize_gpx. rewrite anonymize_body_unfold.
  destruct (tracks gpx) as [ | track other_tracks ]; [ discriminate | ].
  destruct (segments track) as [ | segment other_segs ] eqn:Hs;
    [ discriminate | ].
  destruct (points segment) as [ | p0 rest ] eqn:Hpts; [ discriminate | ].
  destruct (anonymize_points p0 rest) as [ [[pts od'] ad'] | e ] eqn:Hp;
    [ | discriminate ].
  cbn [bind fst snd]. intros H. injection H as <- <- <-.
  exists track, other_tracks, segment, other_segs, p0, rest, pts.
  repeat split; assumption.
Qed.

(** A call on a track with at least one point returns, unless the
    arithmetic raises a domain error. *)
Lemma anonymize_gpx_cases (gpx : GPX F) p0 rest :
  first_segment_points gpx = p0 :: rest ->
  (exists pts od ad,
      anonymize_points p0 rest = Ok (pts, od, ad)
      /\ anonymize_gpx gpx
         = Ok (mkGPX (mkTrack (mkSegment pts :: other_segments gpx)
                        :: tl (tracks gpx)), od, ad))
  \/ anonymize_gpx gpx = Raise computation_error.
Proof.
  unfold first_segment_points, other_segments, anonymize_gpx.
  rewrite anonymize_body_unfold.
  destruct (tracks gpx) as [ | track other_tracks ]; [ discriminate | ].
  destruct (segments track) as [ | segment other_segs ]; [ discriminate | ].
  intros ->.
  destruct (anonymize_points p0 rest) as [ [[pts od] ad] | e ] eqn:Hp.
  - left. exists pts, od, ad. split; reflexivity.
  - right. apply anonymize_points_raises in Hp. subst e. reflexivity.
Qed.

Lemma next_point_elevation (prev q q' : GPXTrackPoint F) d b :
  next_point prev q d b = Ok q' -> elevation q' = Some (elevation_or_0 q).
Proof.
  unfold next_point. intros H.
  apply bind_Ok_inv in H. destruct H as (x & _ & H).
  injection H as <-. reflexivity.
Qed.

Lemma walk_elevation : forall rest ms (prev : GPXTrackPoint F) r,
  walk prev rest ms = Ok r ->
  List.length ms = List.length rest ->
  forall i q, nth_error rest i = Some q ->
    exists a, nth_error r i = Some a
              /\ elevation a = Some (elevation_or_0 q).
Proof.
  induction rest as [ | q0 rest IH ]; intros ms prev r H Hlen i q Hq.
  - destruct i; discriminate Hq.
  - destruct ms as [ | [d b] ms ]; [ discriminate Hlen | ].
    cbn [walk] in H.
    apply bind_Ok_inv in H. destruct H as (q' & Hq' & H).
    apply bind_Ok_inv in H. destruct H as (r' & Hr' & H).
    injection H as <-.
    destruct i as [ | i ].
    + injection Hq as <-. exists q'. split; [ reflexivity | ].
      apply (next_point_elevation _ _ _ _ Hq').
    + simpl in Hq. simpl.
      apply (IH _ _ _ Hr'); [ simpl in Hlen; lia | exact Hq ].
Qed.

End Structure.

(** ** Claims that hold in every arithmetic *)

(** C5.  [anonymize_gpx] signals one of the three validation failures
    exactly when the parsed file has no tracks, or its first track has no
    segments, or its first segment has no points.  This holds whatever the
    arithmetic does, so no geometric computation comes before it; the
    call then ends in [Raise], which carries no output.  The only other
    error is the [math] module's domain error, whose [detail] is none of
    the three. *)
Theorem structural_validation {F : Type} {PF : PyFloat F} (gpx : GPX F) :
  (tracks gpx = [] -> anonymize_gpx gpx = Raise no_tracks_failure)
  /\ (forall track rest,
        tracks gpx = track :: rest -> segments track = [] ->
        anonymize_gpx gpx = Raise no_segments_failure)
  /\ (forall track rest segment rest',
        tracks gpx = track :: rest -> segments track = segment :: rest' ->
        points segment = [] ->
        anonymize_gpx gpx = Raise no_points_failure)
  /\ (forall e, anonymize_gpx gpx = Raise e -> validation_failure e ->
        structurally_empty gpx)
  /\ (forall e, anonymize_gpx gpx = Raise e ->
        validation_failure e \/ e = computation_error)
  /\ ~ validation_failure computation_error.
Proof.
  assert (Hdistinct : ~ validation_failure computation_error).
  { unfold validation_failure, computation_error, no_tracks_failure,
      no_segments_failure, no_points_failure.
    intros [ H | [ H | H ] ]; discriminate H. }
  assert (Hcases :
    forall e, anonymize_gpx gpx = Raise e ->
      (validation_failure e /\ structurally_empty gpx)
      \/ e = computation_error).
  { intros e. unfold anonymize_gpx. rewrite anonymize_body_unfold.
    unfold validation_failure, structurally_empty.
    destruct (tracks gpx) as [ | track other_tracks ].
    { intros H. injection H as <-. left. split; left; reflexivity. }
    destruct (segments track) as [ | segment other_segs ] eqn:Hs.
    { intros H. injection H as <-. left. split.
      - right. left. reflexivity.
      - right. left. exists track, other_tracks. split; auto. }
    destruct (points segment) as [ | p0 rest ] eqn:Hp.
    { intros H. injection H as <-. left. split.
      - right. right. reflexivity.
      - right. right. exists track, other_tracks, segment, other_segs.
        repeat split; auto. }
    destruct (anonymize_points p0 rest) as [ r | e0 ] eqn:Ha;
      [ discriminate | ].
    apply anonymize_points_raises in Ha. subst e0.
    intros H. injection H as <-. right. reflexivity. }
  repeat split.
  - intros H. unfold anonymize_gpx. rewrite anonymize_body_unfold, H.
    reflexivity.
  - intros track rest Ht Hs. unfold anonymize_gpx.
    rewrite anonymize_body_unfold, Ht, Hs. reflexivity.
  - intros track rest segment rest' Ht Hs Hp. unfold anonymize_gpx.
    rewrite anonymize_body_unfold, Ht, Hs, Hp. reflexivity.
  - intros e He Hv. destruct (Hcases e He) as [ [_ H] | H ].
    + exact H.
    + subst e. destruct (Hdistinct Hv).
  - intros e He. destruct (Hcases e He) as [ [H _] | H ]; auto.
  - exact Hdistinct.
Qed.

(** C7.  On a track of exactly one point the call returns, in every
    arithmetic: the output track is that one point moved to latitude 0
    and longitude 0, and both total distances are 0. *)
Theorem single_point_track {F : Type} {PF : PyFloat F} (gpx : GPX F) p :
  first_segment_points gpx = [p] ->
  exists gpx' a,
    anonymize_gpx gpx = Ok (gpx', of_int 0, of_int 0)
    /\ first_segment_points gpx' = [a]
    /\ latitude a = of_int 0 /\ longitude a = of_int 0.
Proof.
  intros Hp.
  destruct (anonymize_gpx_cases gpx Hp) as [ (pts & od & ad & Ha & Hr) | Hr ].
  - injection Ha as <- <- <-.
    eexists. exists (at_origin p). split; [ exact Hr | ].
    repeat split.
  - unfold anonymize_gpx in Hr. rewrite anonymize_body_unfold in Hr.
    unfold first_segment_points in Hp.
    destruct (tracks gpx) as [ | track other_tracks ]; [ discriminate | ].
    destruct (segments track) as [ | segment other_segs ];
      [ discriminate | ].
    rewrite Hp in Hr. discriminate Hr.
Qed.

Lemma single_point_track_witness :
  first_segment_points (one_segment [mkPoint 48.8566 2.3522 (Some 35)])
  = [mkPoint 48.8566 2.3522 (Some 35)]
  /\ exists gpx' a,
      anonymize_gpx (one_segment [mkPoint 48.8566 2.3522 (Some 35)])
      = Ok (gpx', 0, 0)
      /\ first_segment_points gpx' = [a]
      /\ latitude a = 0 /\ longitude a = 0.
Proof.
  split; [ reflexivity | ].
  exact (single_point_track (PF := RFloat)
           (one_segment [mkPoint 48.8566 2.3522 (Some 35)])
           (p := mkPoint 48.8566 2.3522 (Some 35)) eq_refl).
Defined.

(** C4.  On a track with at least one point, whatever its first point
    is, the first point of the output has latitude 0 and longitude 0;
    the call returns that output unless the arithmetic raises a domain
    error. *)
Theorem origin_pinning {F : Type} {PF : PyFloat F} (gpx : GPX F) p0 rest :
  first_segment_points gpx = p0 :: rest ->
  (exists gpx' od ad a0 rest',
      anonymize_gpx gpx = Ok (gpx', od, ad)
      /\ first_segment_points gpx' = a0 :: rest'
      /\ latitude a0 = of_int 0 /\ longitude a0 = of_int 0)
  \/ anonymize_gpx gpx = Raise computation_error.
Proof.
  intros Hp.
  destruct (anonymize_gpx_cases gpx Hp) as [ (pts & od & ad & Ha & Hr) | Hr ];
    [ left | right; exact Hr ].
  apply anonymize_points_Ok in Ha. destruct Ha as (ms & r & _ & _ & -> & _).
  eexists. exists od, ad, (at_origin p0), r.
  split; [ exact Hr | ]. repeat split.
Qed.

(** C8.  The tracks after the first one and the segments of the first
    track after its first one are in the output as they are in the
    input, with all their points. *)
Theorem other_tracks_and_segments_unchanged
    {F : Type} {PF : PyFloat F} (gpx gpx' : GPX F) od ad :
  anonymize_gpx gpx = Ok (gpx', od, ad) ->
  tl (tracks gpx') = tl (tracks gpx)
  /\ other_segments gpx' = other_segments gpx.
Proof.
  intros H. apply anonymize_gpx_Ok in H.
  destruct H as (track & other_tracks & segment & other_segs & p0 & rest
                 & pts & Ht & Hs & _ & _ & ->).
  unfold other_segments. rewrite Ht. cbn [tracks tl segments].
  rewrite Hs. split; reflexivity.
Qed.

Lemma other_tracks_and_segments_unchanged_witness :
  anonymize_gpx two_tracks
  = Ok (mkGPX [mkTrack [mkSegment [mkPoint 0 0 (Some 35)];
                        mkSegment [mkPoint 48.8570 2.3530 (Some 40);
                                   mkPoint 48.8580 2.3540 None]];
               mkTrack [mkSegment [mkPoint 10 20 (Some 5)]]], 0, 0)
  /\ tl (tracks
           (mkGPX [mkTrack [mkSegment [mkPoint 0 0 (Some 35)];
                            mkSegment [mkPoint 48.8570 2.3530 (Some 40);
                                       mkPoint 48.8580 2.3540 None]];
                   mkTrack [mkSegment [mkPoint 10 20 (Some 5)]]]))
     = tl (tracks two_tracks)
  /\ other_segments
       (mkGPX [mkTrack [mkSegment [mkPoint 0 0 (Some 35)];
                        mkSegment [mkPoint 48.8570 2.3530 (Some 40);
                                   mkPoint 48.8580 2.3540 None]];
               mkTrack [mkSegment [mkPoint 10 20 (Some 5)]]])
     = other_segments two_tracks.
Proof.
  split; [ reflexivity | ].
  exact (other_tracks_and_segments_unchanged (PF := RFloat)
           two_tracks (od := 0) (ad := 0) eq_refl).
Defined.

(** C3, as the code has it.  On a track with at least one point, every
    output point of index 1 or more carries the elevation of the input
    point of the same index, with 0 for an absent (or zero) elevation;
    the output point of index 0 keeps the elevation of the first input
    point as it is, absent when it was absent.  The call returns that
    output unless the arithmetic raises a domain error. *)
Theorem elevation_passthrough
    {F : Type} {PF : PyFloat F} (gpx : GPX F) p0 rest :
  first_segment_points gpx = p0 :: rest ->
  (exists gpx' od ad,
      anonymize_gpx gpx = Ok (gpx', od, ad)
      /\ (exists a0, nth_error (first_segment_points gpx') 0 = Some a0
                     /\ elevation a0 = elevation p0)
      /\ (forall i p, (1 <= i)%nat ->
            nth_error (first_segment_points gpx) i = Some p ->
            exists a, nth_error (first_segment_points gpx') i = Some a
                      /\ elevation a = Some (elevation_or_0 p)))
  \/ anonymize_gpx gpx = Raise computation_error.
Proof.
  intros Hp.
  destruct (anonymize_gpx_cases gpx Hp) as [ (pts & od & ad & Ha & Hr) | Hr ];
    [ left | right; exact Hr ].
  apply anonymize_points_Ok in Ha.
  destruct Ha as (ms & r & Hms & Hw & -> & _).
  eexists. exists od, ad. split; [ exact Hr | ].
  rewrite Hp. unfold first_segment_points. cbn [tracks segments points].
  split.
  - exists (at_origin p0). split; reflexivity.
  - intros i p Hi Hn. destruct i as [ | i ]; [ lia | ].
    cbn [nth_error] in *.
    apply (walk_elevation _ _ _ Hw); [ | exact Hn ].
    apply leg_metrics_length in Hms. simpl in Hms. lia.
Qed.

Lemma elevation_passthrough_witness :
  first_segment_points (one_segment paris_track)
  = mkPoint 48.8566 2.3522 (Some 35)
    :: [mkPoint 48.8570 2.3530 (Some 40); mkPoint 48.8580 2.3540 (Some 42)]
  /\ ((exists gpx' od ad,
         anonymize_gpx (one_segment paris_track) = Ok (gpx', od, ad)
         /\ (exists a0, nth_error (first_segment_points gpx') 0 = Some a0
                        /\ elevation a0 = Some 35)
         /\ (forall i p, (1 <= i)%nat ->
               nth_error (first_segment_points (one_segment paris_track)) i
               = Some p ->
               exists a, nth_error (first_segment_points gpx') i = Some a
                         /\ elevation a = Some (elevation_or_0 p)))
      \/ anonymize_gpx (one_segment paris_track) = Raise computation_error).
Proof.
  split; [ reflexivity | ].
  exact (elevation_passthrough (PF := RFloat) (one_segment paris_track)
           eq_refl).
Defined.

Lemma origin_pinning_witness :
  first_segment_points (one_segment paris_track)
  = mkPoint 48.8566 2.3522 (Some 35)
    :: [mkPoint 48.8570 2.3530 (Some 40); mkPoint 48.8580 2.3540 (Some 42)]
  /\ ((exists gpx' od ad a0 rest',
         anonymize_gpx (one_segment paris_track) = Ok (gpx', od, ad)
         /\ first_segment_points gpx' = a0 :: rest'
         /\ latitude a0 = 0 /\ longitude a0 = 0)
      \/ anonymize_gpx (one_segment paris_track) = Raise computation_error).
Proof.
  split; [ reflexivity | ].
  exact (origin_pinning (PF := RFloat) (one_segment paris_track) eq_refl).
Defined.

(** ** Exact arithmetic *)

Lemma atan2_bound y x : - PI < atan2 y x <= PI.
Proof.
  pose proof PI_RGT_0 as HPI.
  pose proof (atan_bound (y / x)) as Hb.
  unfold atan2.
  destruct (Rlt_dec 0 x) as [ Hx | Hx ]; [ lra | ].
  destruct (Rlt_dec x 0) as [ Hx' | Hx' ].
  - assert (Hinv : / x < 0) by (apply Rinv_neg; exact Hx').
    destruct (Rle_dec 0 y) as [ Hy | Hy ].
    + assert (y / x <= 0) by (unfold Rdiv; nra).
      assert (atan (y / x) <= 0).
      { rewrite <- atan_0. destruct (Req_dec (y / x) 0) as [ -> | Hne ];
          [ lra | left; apply atan_increasing; lra ]. }
      lra.
    + assert (0 < y / x) by (unfold Rdiv; nra).
      assert (0 < atan (y / x))
        by (rewrite <- atan_0; apply atan_increasing; lra).
      lra.
  - destruct (Rlt_dec 0 y); [ lra | ].
    destruct (Rlt_dec y 0); lra.
Qed.

Lemma atan2_0_0 : atan2 0 0 = 0.
Proof.
  unfold atan2.
  destruct (Rlt_dec 0 0); [ lra | ].
  destruct (Rlt_dec 0 0); lra.
Qed.

Lemma atan2_0_pos x : 0 < x -> atan2 0 x = 0.
Proof.
  intros Hx. unfold atan2.
  destruct (Rlt_dec 0 x); [ | lra ].
  unfold Rdiv. rewrite Rmult_0_l. apply atan_0.
Qed.

Lemma atan2_0_neg x : x < 0 -> atan2 0 x = PI.
Proof.
  intros Hx. unfold atan2.
  destruct (Rlt_dec 0 x); [ lra | ].
  destruct (Rlt_dec x 0); [ | lra ].
  destruct (Rle_dec 0 0); [ | lra ].
  unfold Rdiv. rewrite Rmult_0_l, atan_0. lra.
Qed.

Lemma atan2_pos_0 y : 0 < y -> atan2 y 0 = PI / 2.
Proof.
  intros Hy. unfold atan2.
  destruct (Rlt_dec 0 0); [ lra | ].
  destruct (Rlt_dec 0 0); [ lra | ].
  destruct (Rlt_dec 0 y); lra.
Qed.

(** The polar form: [atan2 y x] is the angle of [(x, y)]. *)
Lemma atan2_polar_form y x :
  sqrt (x * x + y * y) * cos (atan2 y x) = x
  /\ sqrt (x * x + y * y) * sin (atan2 y x) = y.
Proof.
  assert (Hpos : forall t, 0 < 1 + t²) by (intros t; unfold Rsqr; nra).
  assert (Hs : forall t, 0 < sqrt (1 + t²))
    by (intros t; apply sqrt_lt_R0, Hpos).
  assert (Hr : forall a, a <> 0 ->
            sqrt (a * a + y * y) = Rabs a * sqrt (1 + (y / a)²)).
  { intros a Ha. rewrite <- sqrt_Rsqr_abs, <- sqrt_mult_alt by apply Rle_0_sqr.
    f_equal. unfold Rsqr. field. exact Ha. }
  unfold atan2.
  destruct (Rlt_dec 0 x) as [ Hx | Hx ].
  - rewrite cos_atan, sin_atan, Hr by lra.
    rewrite Rabs_pos_eq by lra.
    specialize (Hs (y / x)).
    split; field; lra.
  - destruct (Rlt_dec x 0) as [ Hx' | Hx' ].
    + rewrite Hr by lra. rewrite Rabs_left by lra.
      specialize (Hs (y / x)).
      destruct (Rle_dec 0 y).
      * rewrite neg_cos, neg_sin, cos_atan, sin_atan. split; field; lra.
      * unfold Rminus. rewrite <- (cos_period _ 1), <- (sin_period _ 1).
        replace (atan (y / x) + - PI + 2 * INR 1 * PI)
          with (atan (y / x) + PI) by (simpl; ring).
        rewrite neg_cos, neg_sin, cos_atan, sin_atan. split; field; lra.
    + assert (x = 0) by lra. subst x.
      replace (0 * 0 + y * y) with (y²) by (unfold Rsqr; ring).
      rewrite sqrt_Rsqr_abs.
      destruct (Rlt_dec 0 y).
      * rewrite cos_PI2, sin_PI2, Rabs_pos_eq by lra. lra.
      * destruct (Rlt_dec y 0).
        -- rewrite cos_neg, sin_neg, cos_PI2, sin_PI2, Rabs_left by lra. lra.
        -- assert (y = 0) by lra. subst y. rewrite Rabs_R0. lra.
Qed.

(** Two angles between [-PI] and [PI] with the same cosine and sine. *)
Lemma angle_unique a b :
  - PI < a <= PI -> - PI < b <= PI ->
  cos a = cos b -> sin a = sin b -> a = b.
Proof.
  intros Ha Hb Hc Hs.
  assert (H1 : cos (a - b) = 1).
  { rewrite cos_minus, Hc, Hs.
    pose proof (sin2_cos2 b) as H. unfold Rsqr in H. lra. }
  assert (H2 : sin ((a - b) / 2) = 0).
  { pose proof (cos_2a_sin ((a - b) / 2)) as H.
    replace (2 * ((a - b) / 2)) with (a - b) in H by field.
    rewrite H1 in H.
    assert (Hsq : sin ((a - b) / 2) * sin ((a - b) / 2) = 0) by lra.
    apply Rmult_integral in Hsq. destruct Hsq; assumption. }
  destruct (Rle_dec 0 ((a - b) / 2)) as [ Hpos | Hneg ].
  - apply sin_eq_O_2PI_0 in H2; lra.
  - assert (H3 : sin (- ((a - b) / 2)) = 0) by (rewrite sin_neg; lra).
    apply sin_eq_O_2PI_0 in H3; lra.
Qed.

Lemma atan2_polar k theta :
  0 < k -> - PI < theta <= PI ->
  atan2 (k * sin theta) (k * cos theta) = theta.
Proof.
  intros Hk Ht.
  destruct (atan2_polar_form (k * sin theta) (k * cos theta)) as [ Hc Hs ].
  assert (Hr : sqrt (k * cos theta * (k * cos theta)
                     + k * sin theta * (k * sin theta)) = k).
  { apply sqrt_lem_1; [ nra | lra | ].
    pose proof (sin2_cos2 theta) as H. unfold Rsqr in H. nra. }
  rewrite Hr in Hc, Hs.
  apply angle_unique.
  - apply atan2_bound.
  - exact Ht.
  - apply (Rmult_eq_reg_l k); lra.
  - apply (Rmult_eq_reg_l k); lra.
Qed.

(** ** Haversine *)

Lemma sin_cos_sq x : sin x * sin x + cos x * cos x = 1.
Proof. pose proof (sin2_cos2 x) as H. unfold Rsqr in H. exact H. Qed.

Lemma sin_half_sq x : sin (x / 2) * sin (x / 2) = (1 - cos x) / 2.
Proof.
  pose proof (cos_2a_sin (x / 2)) as H.
  replace (2 * (x / 2)) with x in H by field. lra.
Qed.

Lemma haversine_a_central lat1 lon1 lat2 lon2 :
  haversine_a (PF := RFloat) lat1 lon1 lat2 lon2
  = (1 - central_cos lat1 lon1 lat2 lon2) / 2.
Proof.
  unfold haversine_a, central_cos. cbn [fadd fsub fmul fdiv fpow2 of_int
    math_sin math_cos RFloat].
  replace (sin ((lat2 - lat1) / 2) ^ 2)
    with (sin ((lat2 - lat1) / 2) * sin ((lat2 - lat1) / 2)) by ring.
  replace (sin ((lon2 - lon1) / 2) ^ 2)
    with (sin ((lon2 - lon1) / 2) * sin ((lon2 - lon1) / 2)) by ring.
  rewrite !sin_half_sq, cos_minus. field.
Qed.

Lemma unit_dot_bound s1 c1 s2 c2 cd :
  s1 * s1 + c1 * c1 = 1 -> s2 * s2 + c2 * c2 = 1 -> cd * cd <= 1 ->
  -1 <= s1 * s2 + c1 * c2 * cd <= 1.
Proof.
  intros H1 H2 H3.
  assert (Hk : (c2 * cd) * (c2 * cd) <= c2 * c2) by nra.
  assert (Hcs : (s1 * s2 + c1 * c2 * cd) * (s1 * s2 + c1 * c2 * cd)
                + (s1 * (c2 * cd) - c1 * s2) * (s1 * (c2 * cd) - c1 * s2)
                = (s1 * s1 + c1 * c1) * (s2 * s2 + (c2 * cd) * (c2 * cd)))
    by ring.
  rewrite H1 in Hcs.
  pose proof (Rle_0_sqr (s1 * (c2 * cd) - c1 * s2)) as Hw.
  unfold Rsqr in Hw.
  set (u := s1 * s2 + c1 * c2 * cd) in *.
  assert (Hsq : u * u <= 1) by lra.
  clearbody u. clear - Hsq. nra.
Qed.

Lemma central_cos_bound lat1 lon1 lat2 lon2 :
  -1 <= central_cos lat1 lon1 lat2 lon2 <= 1.
Proof.
  unfold central_cos.
  apply unit_dot_bound; try apply sin_cos_sq.
  pose proof (sin_cos_sq (lon2 - lon1)). nra.
Qed.

Lemma haversine_a_bound lat1 lon1 lat2 lon2 :
  0 <= haversine_a (PF := RFloat) lat1 lon1 lat2 lon2 <= 1.
Proof.
  rewrite haversine_a_central.
  pose proof (central_cos_bound lat1 lon1 lat2 lon2). lra.
Qed.

Lemma checked_sqrt_nonneg x : 0 <= x -> checked_sqrt x = Some (sqrt x).
Proof. intros H. unfold checked_sqrt. destruct (Rlt_dec x 0); [ lra | reflexivity ]. Qed.

Lemma checked_asin_in_range x : -1 <= x <= 1 -> checked_asin x = Some (asin x).
Proof.
  intros H. unfold checked_asin.
  destruct (Rle_dec (-1) x); [ | lra ].
  destruct (Rle_dec x 1); [ reflexivity | lra ].
Qed.

Lemma sqrt_unit x : 0 <= x <= 1 -> 0 <= sqrt x <= 1.
Proof.
  intros [H0 H1]. split; [ apply sqrt_pos | ].
  rewrite <- sqrt_1. apply sqrt_le_1_alt. exact H1.
Qed.

Lemma asin_nonneg x : 0 <= x <= 1 -> 0 <= asin x.
Proof.
  intros Hx. pose proof (asin_bound x) as Hb. pose proof PI_RGT_0 as HPI.
  destruct (Rle_dec 0 (asin x)) as [ H | H ]; [ exact H | exfalso ].
  assert (Hs : 0 < sin (- asin x)) by (apply sin_gt_0; lra).
  rewrite sin_neg, sin_asin in Hs; lra.
Qed.

Lemma calculate_distance_central_angle lat1 lon1 lat2 lon2 :
  calculate_distance (PF := RFloat) lat1 lon1 lat2 lon2
  = Ok (6371 * central_angle lat1 lon1 lat2 lon2).
Proof.
  unfold calculate_distance, central_angle.
  cbn [math_radians math_sqrt math_asin of_int fmul RFloat].
  pose proof (haversine_a_bound (radians lat1) (radians lon1)
                (radians lat2) (radians lon2)) as Ha.
  rewrite checked_sqrt_nonneg by lra. cbn [domain bind].
  rewrite checked_asin_in_range by (pose proof (sqrt_unit Ha); lra).
  reflexivity.
Qed.

Lemma central_angle_bound lat1 lon1 lat2 lon2 :
  0 <= central_angle lat1 lon1 lat2 lon2 <= PI.
Proof.
  unfold central_angle.
  pose proof (haversine_a_bound (radians lat1) (radians lon1)
                (radians lat2) (radians lon2)) as Ha.
  apply sqrt_unit in Ha.
  set (s := sqrt _) in *.
  pose proof (asin_bound s) as Hb.
  pose proof (asin_nonneg Ha). lra.
Qed.

Lemma cos_central_angle lat1 lon1 lat2 lon2 :
  cos (central_angle lat1 lon1 lat2 lon2)
  = central_cos (radians lat1) (radians lon1) (radians lat2) (radians lon2).
Proof.
  unfold central_angle.
  pose proof (haversine_a_bound (radians lat1) (radians lon1)
                (radians lat2) (radians lon2)) as Ha.
  pose proof (sqrt_unit Ha) as Hs.
  rewrite cos_2a_sin, sin_asin by lra.
  rewrite Rmult_assoc, sqrt_sqrt by lra.
  rewrite haversine_a_central. field.
Qed.

(** A leg whose central angle is known. *)
Lemma central_angle_eq lat1 lon1 lat2 lon2 c :
  0 <= c <= PI ->
  central_cos (radians lat1) (radians lon1) (radians lat2) (radians lon2)
  = cos c ->
  central_angle lat1 lon1 lat2 lon2 = c.
Proof.
  intros Hc Hcos. unfold central_angle.
  rewrite haversine_a_central, Hcos.
  rewrite <- sin_half_sq.
  assert (Hs : 0 <= sin (c / 2)) by (apply sin_ge_0; lra).
  rewrite sqrt_square by exact Hs.
  rewrite asin_sin by lra. field.
Qed.

(** ** The destination point *)

Lemma dest_sin_bound lat1 delta theta :
  -1 <= sin lat1 * cos delta + cos lat1 * sin delta * cos theta <= 1.
Proof.
  apply unit_dot_bound.
  - apply sin_cos_sq.
  - rewrite Rplus_comm. apply sin_cos_sq.
  - pose proof (sin_cos_sq theta). nra.
Qed.

Lemma sin_dest_lat lat1 delta theta :
  sin (dest_lat lat1 delta theta)
  = sin lat1 * cos delta + cos lat1 * sin delta * cos theta.
Proof. unfold dest_lat. apply sin_asin, dest_sin_bound. Qed.

Lemma dest_lat_bound lat1 delta theta :
  - (PI / 2) <= dest_lat lat1 delta theta <= PI / 2.
Proof. unfold dest_lat. apply asin_bound. Qed.

Lemma cos_dest_lat_nonneg lat1 delta theta :
  0 <= cos (dest_lat lat1 delta theta).
Proof.
  pose proof (dest_lat_bound lat1 delta theta).
  apply cos_ge_0; lra.
Qed.

(** The two arguments of [atan2] in [dest_dlon] are the coordinates of a
    point at distance [cos lat1 * cos lat2] from the origin. *)
Lemma dest_radius lat1 delta theta :
  0 <= cos lat1 ->
  sqrt ((cos delta - sin lat1 * sin (dest_lat lat1 delta theta))
        * (cos delta - sin lat1 * sin (dest_lat lat1 delta theta))
        + sin theta * sin delta * cos lat1
          * (sin theta * sin delta * cos lat1))
  = cos lat1 * cos (dest_lat lat1 delta theta).
Proof.
  intros Hc1.
  pose proof (cos_dest_lat_nonneg lat1 delta theta) as Hc2.
  pose proof (sin_cos_sq (dest_lat lat1 delta theta)) as H2.
  rewrite sin_dest_lat in *.
  pose proof (sin_cos_sq lat1) as H1.
  pose proof (sin_cos_sq delta) as Hd.
  pose proof (sin_cos_sq theta) as Ht.
  apply sqrt_lem_1.
  - apply Rplus_le_le_0_compat; apply Rle_0_sqr.
  - apply Rmult_le_pos; assumption.
  - set (c2 := cos (dest_lat lat1 delta theta)) in *. clearbody c2.
    set (s1 := sin lat1) in *. set (c1 := cos lat1) in *.
    set (sd := sin delta) in *. set (cd := cos delta) in *.
    set (st := sin theta) in *. set (ct := cos theta) in *.
    clearbody s1 c1 sd cd st ct. clear Hc1 Hc2.
    nsatz.
Qed.

Lemma dest_polar lat1 delta theta :
  0 <= cos lat1 ->
  cos lat1 * cos (dest_lat lat1 delta theta) * cos (dest_dlon lat1 delta theta)
  = cos delta - sin lat1 * sin (dest_lat lat1 delta theta)
  /\ cos lat1 * cos (dest_lat lat1 delta theta)
     * sin (dest_dlon lat1 delta theta)
     = sin theta * sin delta * cos lat1.
Proof.
  intros Hc1. rewrite <- (@dest_radius lat1 delta theta Hc1).
  apply atan2_polar_form.
Qed.

(** The destination lies at the central angle [delta] from the start. *)
Lemma dest_central_cos lat1 lon1 delta theta :
  0 <= cos lat1 ->
  central_cos lat1 lon1 (dest_lat lat1 delta theta)
              (lon1 + dest_dlon lat1 delta theta)
  = cos delta.
Proof.
  intros Hc1. unfold central_cos.
  replace (lon1 + dest_dlon lat1 delta theta - lon1)
    with (dest_dlon lat1 delta theta) by ring.
  destruct (@dest_polar lat1 delta theta Hc1) as [ Hx _ ].
  rewrite Hx. ring.
Qed.

(** The initial bearing from the start to the destination. *)
Lemma dest_bearing lat1 lon1 delta theta :
  0 < cos lat1 ->
  bearing_rad lat1 lon1 (dest_lat lat1 delta theta)
              (lon1 + dest_dlon lat1 delta theta)
  = atan2 (sin delta * sin theta) (sin delta * cos theta).
Proof.
  intros Hc1. unfold bearing_rad.
  replace (lon1 + dest_dlon lat1 delta theta - lon1)
    with (dest_dlon lat1 delta theta) by ring.
  destruct (@dest_polar lat1 delta theta) as [ Hx Hy ]; [ lra | ].
  pose proof (sin_cos_sq lat1) as H1.
  rewrite sin_dest_lat in *.
  set (c2 := cos (dest_lat lat1 delta theta)) in *.
  set (cl := cos (dest_dlon lat1 delta theta)) in *.
  set (sl := sin (dest_dlon lat1 delta theta)) in *.
  f_equal.
  - apply (Rmult_eq_reg_l (cos lat1)); [ | lra ]. lra.
  - apply (Rmult_eq_reg_l (cos lat1)); [ | lra ].
    replace (cos lat1 *
             (cos lat1 * (sin lat1 * cos delta
                          + cos lat1 * sin delta * cos theta)
              - sin lat1 * c2 * cl))
      with (cos lat1 * cos lat1
            * (sin lat1 * cos delta + cos lat1 * sin delta * cos theta)
            - sin lat1 * (cos lat1 * c2 * cl)) by ring.
    rewrite Hx.
    replace (cos lat1 * cos lat1) with (1 - sin lat1 * sin lat1) by lra.
    ring_simplify. 
    replace (sin lat1 ^ 2) with (1 - cos lat1 * cos lat1) by lra.
    ring.
Qed.

(** ** The pipeline in exact arithmetic *)

Lemma radians_degrees x : radians (degrees x) = x.
Proof. unfold radians, degrees. pose proof PI_RGT_0. field. lra. Qed.

Lemma degrees_radians x : degrees (radians x) = x.
Proof. unfold radians, degrees. pose proof PI_RGT_0. field. lra. Qed.

Lemma radians_0 : radians 0 = 0.
Proof. unfold radians. ring. Qed.

Lemma angular_dist_leg c : angular_dist (6371 * c) = c.
Proof. unfold angular_dist. field. Qed.

Lemma leg_bearing_rad (p1 p2 : GPXTrackPoint R) :
  leg_bearing p1 p2
  = bearing_rad (radians (latitude p1)) (radians (longitude p1))
                (radians (latitude p2)) (radians (longitude p2)).
Proof. reflexivity. Qed.

Lemma next_point_exact (prev q : GPXTrackPoint R) d b :
  next_point prev q d b
  = Ok (mkPoint
          (degrees (dest_lat (radians (latitude prev)) (angular_dist d) b))
          (degrees (radians (longitude prev)
                    + dest_dlon (radians (latitude prev)) (angular_dist d) b))
          (Some (elevation_or_0 q))).
Proof.
  unfold next_point, destination_lat.
  cbn [math_radians math_asin math_sin math_cos fmul fadd fdiv of_int RFloat].
  change (d * 1000 / 6371000) with (angular_dist d).
  rewrite checked_asin_in_range by apply dest_sin_bound.
  reflexivity.
Qed.

Lemma leg_metrics_exact (o q : GPXTrackPoint R) rest :
  exists ms,
    leg_metrics (q :: rest) = Ok ms
    /\ leg_metrics (o :: q :: rest)
       = Ok ((6371 * leg_angle o q, leg_bearing o q) :: ms).
Proof.
  revert o q. induction rest as [ | q' rest IH ]; intros o q.
  - exists []. split; [ reflexivity | ].
    rewrite leg_metrics_cons2, calculate_distance_central_angle.
    reflexivity.
  - destruct (IH q q') as (ms & Hms & Hms').
    eexists. split; [ exact Hms' | ].
    rewrite leg_metrics_cons2, calculate_distance_central_angle, Hms'.
    reflexivity.
Qed.

Lemma leg_metrics_total (pts : list (GPXTrackPoint R)) :
  exists ms, leg_metrics pts = Ok ms.
Proof.
  destruct pts as [ | o [ | q rest ] ]; try (exists []; reflexivity).
  destruct (leg_metrics_exact o q rest) as (ms & _ & H).
  eexists. exact H.
Qed.

(** A leg of the original track with zero or half-turn central angle has
    bearing 0. *)
Lemma bearing_rad_degenerate lat1 lon1 lat2 lon2 :
  central_cos lat1 lon1 lat2 lon2 * central_cos lat1 lon1 lat2 lon2 = 1 ->
  bearing_rad lat1 lon1 lat2 lon2 = 0.
Proof.
  unfold central_cos, bearing_rad. intros Hu.
  pose proof (sin_cos_sq lat1) as H1.
  pose proof (sin_cos_sq lat2) as H2.
  pose proof (sin_cos_sq (lon2 - lon1)) as Hd.
  set (s1 := sin lat1) in *. set (c1 := cos lat1) in *.
  set (s2 := sin lat2) in *. set (c2 := cos lat2) in *.
  set (sd := sin (lon2 - lon1)) in *. set (cd := cos (lon2 - lon1)) in *.
  clearbody s1 c1 s2 c2 sd cd.
  assert (Hsum : (sd * c2) * (sd * c2)
                 + (c1 * s2 - s1 * c2 * cd) * (c1 * s2 - s1 * c2 * cd) = 0)
    by nsatz.
  apply Rplus_sqr_eq_0 in Hsum. destruct Hsum as [ Hy Hx ].
  rewrite Hy, Hx. apply atan2_0_0.
Qed.

(** One turn of the reconstruction loop: the rebuilt leg has the
    distance of the original leg, and its bearing unless the turn starts
    at a pole. *)
Lemma next_point_leg (o1 o2 a1 a2 : GPXTrackPoint R) :
  lat_in_range a1 ->
  next_point a1 o2 (6371 * leg_angle o1 o2) (leg_bearing o1 o2) = Ok a2 ->
  lat_in_range a2
  /\ calculate_distance (latitude a1) (longitude a1)
                        (latitude a2) (longitude a2)
     = calculate_distance (latitude o1) (longitude o1)
                          (latitude o2) (longitude o2)
  /\ (cos (radians (latitude a1)) <> 0 ->
      leg_bearing a1 a2 = leg_bearing o1 o2).
Proof.
  intros Hr H. rewrite next_point_exact, angular_dist_leg in H.
  injection H as <-.
  assert (Hc1 : 0 <= cos (radians (latitude a1)))
    by (apply cos_ge_0; apply Hr).
  pose proof (central_angle_bound (latitude o1) (longitude o1)
                (latitude o2) (longitude o2)) as Hc.
  fold (leg_angle o1 o2) in Hc.
  split; [ | split ].
  - unfold lat_in_range. cbn [latitude]. rewrite radians_degrees.
    apply dest_lat_bound.
  - rewrite !calculate_distance_central_angle. cbn [latitude longitude].
    do 2 f_equal. fold (leg_angle o1 o2).
    apply central_angle_eq; [ exact Hc | ].
    rewrite !radians_degrees. apply dest_central_cos. exact Hc1.
  - intros Hne. rewrite (leg_bearing_rad a1). cbn [latitude longitude].
    rewrite !radians_degrees, dest_bearing by lra.
    assert (Hs : 0 <= sin (leg_angle o1 o2)) by (apply sin_ge_0; lra).
    destruct (Req_dec (sin (leg_angle o1 o2)) 0) as [ H0 | H0 ].
    + rewrite H0, !Rmult_0_l, atan2_0_0. symmetry.
      rewrite leg_bearing_rad. apply bearing_rad_degenerate.
      unfold leg_angle in H0. rewrite <- cos_central_angle.
      pose proof (sin_cos_sq (central_angle (latitude o1) (longitude o1)
                                (latitude o2) (longitude o2))) as Hsc.
      rewrite H0 in Hsc. lra.
    + apply atan2_polar; [ lra | ].
      rewrite leg_bearing_rad. apply atan2_bound.
Qed.

Lemma walk_cons {F : Type} {PF : PyFloat F} (prev q : GPXTrackPoint F)
    rest d b ms :
  walk prev (q :: rest) ((d, b) :: ms)
  = bind (next_point prev q d b) (fun q' =>
    bind (walk q' rest ms) (fun r => Ok (q' :: r))).
Proof. reflexivity. Qed.

Lemma walk_legs : forall rest o prev ms,
  leg_metrics (o :: rest) = Ok ms ->
  lat_in_range prev ->
  exists r,
    walk prev rest ms = Ok r
    /\ forall i o1 o2,
         nth_error (o :: rest) i = Some o1 ->
         nth_error (o :: rest) (S i) = Some o2 ->
         exists a1 a2,
           nth_error (prev :: r) i = Some a1
           /\ nth_error (prev :: r) (S i) = Some a2
           /\ leg_rebuilt o1 o2 a1 a2.
Proof.
  induction rest as [ | q rest IH ]; intros o prev ms Hms Hprev.
  - exists []. split; [ reflexivity | ].
    intros i o1 o2 _ H2. destruct i; discriminate H2.
  - destruct (leg_metrics_exact o q rest) as (ms' & Hms' & Hms'').
    assert (Hms_eq : ms = (6371 * leg_angle o q, leg_bearing o q) :: ms')
      by congruence.
    subst ms. rewrite walk_cons.
    destruct (next_point prev q (6371 * leg_angle o q) (leg_bearing o q))
      as [ q' | e ] eqn:Hq'.
    2:{ rewrite next_point_exact in Hq'. discriminate Hq'. }
    destruct (@next_point_leg o q prev q' Hprev Hq') as (Hq'r & _ & _).
    destruct (IH q q' ms' Hms' Hq'r) as (r & Hr & Hlegs).
    exists (q' :: r). split.
    + cbn [bind]. rewrite Hr. reflexivity.
    + intros i o1 o2 H1 H2. destruct i as [ | i ].
      * injection H1 as <-. injection H2 as <-.
        exists prev, q'.
        split; [ reflexivity | ]. split; [ reflexivity | ].
        split; assumption.
      * apply (Hlegs i o1 o2 H1 H2).
Qed.

(** [anonymize_gpx] in exact arithmetic: it returns on every track with
    at least one point, and every leg is rebuilt by [next_point]. *)
Theorem anonymize_gpx_exact (gpx : GPX R) p0 rest :
  first_segment_points gpx = p0 :: rest ->
  exists r od ad,
    anonymize_gpx gpx
    = Ok (mkGPX (mkTrack (mkSegment (at_origin p0 :: r)
                            :: other_segments gpx) :: tl (tracks gpx)),
          od, ad)
    /\ forall i o1 o2,
         nth_error (p0 :: rest) i = Some o1 ->
         nth_error (p0 :: rest) (S i) = Some o2 ->
         exists a1 a2,
           nth_error (at_origin p0 :: r) i = Some a1
           /\ nth_error (at_origin p0 :: r) (S i) = Some a2
           /\ leg_rebuilt o1 o2 a1 a2.
Proof.
  intros Hp.
  destruct (leg_metrics_total (p0 :: rest)) as (ms & Hms).
  assert (H0 : lat_in_range (at_origin p0)).
  { unfold lat_in_range. cbn [at_origin set_longitude set_latitude latitude
      of_int RFloat].
    rewrite radians_0. pose proof PI_RGT_0. lra. }
  destruct (@walk_legs rest p0 (at_origin p0) ms Hms H0)
    as (r & Hr & Hlegs).
  destruct (leg_metrics_total (at_origin p0 :: r)) as (ms' & Hms').
  destruct (anonymize_gpx_cases gpx Hp) as [ (pts & od & ad & Ha & Hg) | Hg ].
  - unfold anonymize_points in Ha.
    rewrite Hms in Ha. cbn [bind] in Ha.
    rewrite Hr in Ha. cbn [bind] in Ha.
    rewrite Hms' in Ha. cbn [bind] in Ha.
    assert (Hpts : pts = at_origin p0 :: r) by congruence. subst pts.
    exists r, od, ad. split; [ exact Hg | exact Hlegs ].
  - exfalso. unfold anonymize_gpx in Hg.
    rewrite anonymize_body_unfold in Hg.
    unfold first_segment_points in Hp.
    destruct (tracks gpx) as [ | track other_tracks ]; [ discriminate | ].
    destruct (segments track) as [ | segment other_segs ];
      [ discriminate | ].
    rewrite Hp in Hg. unfold anonymize_points in Hg.
    rewrite Hms in Hg. cbn [bind] in Hg.
    rewrite Hr in Hg. cbn [bind] in Hg.
    rewrite Hms' in Hg. discriminate Hg.
Qed.

Lemma first_segment_points_out (gpx : GPX R) pts :
  first_segment_points
    (mkGPX (mkTrack (mkSegment pts :: other_segments gpx) :: tl (tracks gpx)))
  = pts.
Proof. reflexivity. Qed.

Lemma cos_radians_nonzero x :
  - (PI / 2) <= radians x <= PI / 2 -> x <> 90 -> x <> -90 ->
  cos (radians x) <> 0.
Proof.
  intros Hr H90 Hm90.
  assert (Hlt : - (PI / 2) < radians x < PI / 2).
  { pose proof PI_RGT_0 as HPI. split.
    - destruct (proj1 Hr) as [ H | H ]; [ exact H | exfalso ].
      apply Hm90. rewrite <- (degrees_radians x), <- H.
      unfold degrees. field. lra.
    - destruct (proj2 Hr) as [ H | H ]; [ exact H | exfalso ].
      apply H90. rewrite <- (degrees_radians x), H.
      unfold degrees. field. lra. }
  apply Rgt_not_eq. apply cos_gt_0; lra.
Qed.






Lemma identical_points_angle (o1 o2 : GPXTrackPoint R) :
  latitude o1 = latitude o2 -> longitude o1 = longitude o2 ->
  leg_angle o1 o2 = 0 /\ leg_bearing o1 o2 = 0.
Proof.
  intros Hlat Hlon. pose proof PI_RGT_0 as HPI.
  assert (Hu : central_cos (radians (latitude o1)) (radians (longitude o1))
                 (radians (latitude o2)) (radians (longitude o2)) = 1).
  { unfold central_cos. rewrite Hlat, Hlon.
    unfold Rminus. rewrite Rplus_opp_r, cos_0, Rmult_1_r.
    apply sin_cos_sq. }
  split.
  - apply central_angle_eq; [ lra | ]. rewrite cos_0. exact Hu.
  - rewrite leg_bearing_rad. apply bearing_rad_degenerate.
    rewrite Hu. ring.
Qed.

Lemma next_point_zero_leg (a1 q a2 : GPXTrackPoint R) :
  lat_in_range a1 ->
  next_point a1 q (6371 * 0) 0 = Ok a2 ->
  latitude a2 = latitude a1 /\ longitude a2 = longitude a1.
Proof.
  intros Hr H. rewrite next_point_exact, angular_dist_leg in H.
  injection H as <-. cbn [latitude longitude].
  assert (Hlat : dest_lat (radians (latitude a1)) 0 0
                 = radians (latitude a1)).
  { unfold dest_lat. rewrite sin_0, cos_0, Rmult_0_r, Rmult_0_l, Rplus_0_r,
      Rmult_1_r.
    apply asin_sin. exact Hr. }
  split.
  - rewrite Hlat. apply degrees_radians.
  - unfold dest_dlon. rewrite Hlat, sin_0, cos_0, Rmult_0_l, Rmult_0_l.
    assert (Hx : 1 - sin (radians (latitude a1)) * sin (radians (latitude a1))
                 = cos (radians (latitude a1)) * cos (radians (latitude a1))).
    { pose proof (sin_cos_sq (radians (latitude a1))). lra. }
    rewrite Hx.
    assert (Hz : atan2 0 (cos (radians (latitude a1))
                          * cos (radians (latitude a1))) = 0).
    { destruct (Req_dec (cos (radians (latitude a1))) 0) as [ -> | Hne ].
      - rewrite Rmult_0_l. apply atan2_0_0.
      - apply atan2_0_pos. nra. }
    rewrite Hz, Rplus_0_r. apply degrees_radians.
Qed.



(** ** Special angles and the examples *)

Lemma radians_90 : radians 90 = PI / 2.
Proof. unfold radians. field. Qed.

Lemma radians_180 : radians 180 = PI.
Proof. unfold radians. field. Qed.

Lemma degrees_PI2 : degrees (PI / 2) = 90.
Proof. unfold degrees. pose proof PI_RGT_0. field. lra. Qed.

Lemma degrees_0 : degrees 0 = 0.
Proof. unfold degrees. ring. Qed.

Lemma angular_dist_0 : angular_dist 0 = 0.
Proof. unfold angular_dist. field. Qed.

(** A quarter turn along the equator, eastwards. *)
Lemma equator_quarter_turn (o1 o2 : GPXTrackPoint R) :
  latitude o1 = 0 -> latitude o2 = 0 ->
  longitude o2 - longitude o1 = 90 ->
  leg_angle o1 o2 = PI / 2 /\ leg_bearing o1 o2 = PI / 2.
Proof.
  intros H1 H2 Hlon. pose proof PI_RGT_0 as HPI.
  assert (Hd : radians (longitude o2) - radians (longitude o1) = PI / 2).
  { rewrite <- radians_90, <- Hlon. unfold radians. ring. }
  split.
  - apply central_angle_eq; [ lra | ].
    unfold central_cos. rewrite H1, H2, Hd, radians_0, sin_0, cos_0, cos_PI2.
    ring.
  - rewrite leg_bearing_rad. unfold bearing_rad.
    rewrite H1, H2, Hd, radians_0, sin_0, cos_0, sin_PI2, cos_PI2.
    replace (1 * 0 - 0 * 1 * 0) with 0 by ring.
    rewrite Rmult_1_l. apply atan2_pos_0. lra.
Qed.

Lemma equator_step (a q a' : GPXTrackPoint R) :
  latitude a = 0 ->
  next_point a q (6371 * (PI / 2)) (PI / 2) = Ok a' ->
  latitude a' = 0 /\ longitude a' = longitude a + 90.
Proof.
  intros Hlat H. rewrite next_point_exact, angular_dist_leg in H.
  injection H as <-. cbn [latitude longitude].
  assert (Hl : dest_lat (radians (latitude a)) (PI / 2) (PI / 2) = 0).
  { unfold dest_lat. rewrite Hlat, radians_0, sin_0, cos_0, sin_PI2, cos_PI2.
    replace (0 * 0 + 1 * 1 * 0) with 0 by ring. apply asin_0. }
  split.
  - rewrite Hl. apply degrees_0.
  - unfold dest_dlon. rewrite Hl, Hlat, radians_0, sin_0, cos_0, sin_PI2,
      cos_PI2.
    replace (1 * 1 * 1) with 1 by ring.
    replace (0 - 0 * 0) with 0 by ring.
    rewrite atan2_pos_0 by lra.
    rewrite <- radians_90. unfold radians, degrees.
    pose proof PI_RGT_0. field. lra.
Qed.

Create Rewrite HintDb sphere.

#[local] Hint Rewrite radians_0 radians_90 radians_180 radians_degrees
  degrees_radians degrees_0 degrees_PI2 angular_dist_0 angular_dist_leg
  sin_0 cos_0 sin_PI2 cos_PI2 asin_0 asin_1 atan2_0_0
  Rmult_0_l Rmult_0_r Rmult_1_l Rmult_1_r Rplus_0_l Rplus_0_r
  Rminus_0_r Rminus_diag : sphere.

Lemma equator_example :
  Forall valid_point equator_track
  /\ exists gpx' od ad a,
       anonymize_gpx (one_segment equator_track) = Ok (gpx', od, ad)
       /\ nth_error (first_segment_points gpx') 3 = Some a
       /\ longitude a = 270.
Proof.
  split.
  { unfold equator_track, valid_point.
    repeat constructor; cbn [latitude longitude]; lra. }
  destruct (@anonymize_gpx_exact (one_segment equator_track)
              (mkPoint 0 (-90) None)
              [mkPoint 0 0 None; mkPoint 0 90 None; mkPoint 0 180 None]
              eq_refl) as (r & od & ad & Hg & Hlegs).
  destruct (Hlegs 0%nat _ _ eq_refl eq_refl)
    as (a0 & a1 & Ha0 & Ha1 & _ & H01).
  destruct (Hlegs 1%nat _ _ eq_refl eq_refl)
    as (a1' & a2 & Ha1' & Ha2 & _ & H12).
  destruct (Hlegs 2%nat _ _ eq_refl eq_refl)
    as (a2' & a3 & Ha2' & Ha3 & _ & H23).
  assert (a1' = a1) by congruence. subst a1'.
  assert (a2' = a2) by congruence. subst a2'.
  injection Ha0 as <-.
  destruct (@equator_quarter_turn (mkPoint 0 (-90) None) (mkPoint 0 0 None))
    as [ E1 E2 ]; [ reflexivity | reflexivity | cbn [longitude]; lra | ].
  rewrite E1, E2 in H01. apply equator_step in H01; [ | reflexivity ].
  destruct (@equator_quarter_turn (mkPoint 0 0 None) (mkPoint 0 90 None))
    as [ E3 E4 ]; [ reflexivity | reflexivity | cbn [longitude]; lra | ].
  rewrite E3, E4 in H12. apply equator_step in H12; [ | apply H01 ].
  destruct (@equator_quarter_turn (mkPoint 0 90 None) (mkPoint 0 180 None))
    as [ E5 E6 ]; [ reflexivity | reflexivity | cbn [longitude]; lra | ].
  rewrite E5, E6 in H23. apply equator_step in H23; [ | apply H12 ].
  eexists. exists od, ad, a3.
  split; [ exact Hg | ]. split; [ exact Ha3 | ].
  destruct H01 as [ _ L1 ]. destruct H12 as [ _ L2 ]. destruct H23 as [ _ L3 ].
  rewrite L3, L2, L1. cbn [at_origin set_longitude set_latitude longitude
    of_int RFloat]. lra.
Qed.

Lemma degrees_plus x y : degrees (x + y) = degrees x + degrees y.
Proof. unfold degrees. ring. Qed.





(** C3 fails as stated.  The single point of this track has elevation
    35, and so has the output point of index 0. *)
Lemma first_elevation_kept_example :
  anonymize_gpx (one_segment [mkPoint 48.8566 2.3522 (Some 35)])
  = Ok (one_segment [mkPoint 0 0 (Some 35)], 0, 0)
  /\ Some 35 <> Some 0.
Proof.
  split; [ reflexivity | ].
  intros H. injection H as H. lra.
Qed.

(** * Further properties

    ** More on [calculate_distance], in exact arithmetic *)

Lemma central_cos_sym lat1 lon1 lat2 lon2 :
  central_cos lat1 lon1 lat2 lon2 = central_cos lat2 lon2 lat1 lon1.
Proof.
  unfold central_cos.
  replace (lon1 - lon2) with (- (lon2 - lon1)) by ring.
  rewrite cos_neg. ring.
Qed.

Lemma central_angle_cos_eq lat1 lon1 lat2 lon2 lat1' lon1' lat2' lon2' :
  central_cos (radians lat1) (radians lon1) (radians lat2) (radians lon2)
  = central_cos (radians lat1') (radians lon1')
                (radians lat2') (radians lon2') ->
  central_angle lat1 lon1 lat2 lon2 = central_angle lat1' lon1' lat2' lon2'.
Proof.
  intros H. unfold central_angle. rewrite !haversine_a_central, H.
  reflexivity.
Qed.



Lemma cos_period_Z x (k : Z) : cos (x + 2 * IZR k * PI) = cos x.
Proof.
  destruct (Z_le_gt_dec 0 k) as [ Hk | Hk ].
  - rewrite <- (Z2Nat.id k Hk), <- INR_IZR_INZ. apply cos_period.
  - rewrite <- (cos_period (x + 2 * IZR k * PI) (Z.to_nat (- k))).
    rewrite INR_IZR_INZ, Z2Nat.id by lia. rewrite opp_IZR.
    f_equal. ring.
Qed.

Lemma sin_period_Z x (k : Z) : sin (x + 2 * IZR k * PI) = sin x.
Proof.
  destruct (Z_le_gt_dec 0 k) as [ Hk | Hk ].
  - rewrite <- (Z2Nat.id k Hk), <- INR_IZR_INZ. apply sin_period.
  - rewrite <- (sin_period (x + 2 * IZR k * PI) (Z.to_nat (- k))).
    rewrite INR_IZR_INZ, Z2Nat.id by lia. rewrite opp_IZR.
    f_equal. ring.
Qed.

Lemma radians_turns lon (k : Z) :
  radians (lon + 360 * IZR k) = radians lon + 2 * IZR k * PI.
Proof. unfold radians. field. Qed.



(** ** More on [anonymize_gpx], in every arithmetic *)

Section MoreStructure.

Context {F : Type} {PF : PyFloat F}.

Lemma walk_length : forall rest ms (prev : GPXTrackPoint F) r,
  walk prev rest ms = Ok r -> List.length r = List.length rest.
Proof.
  induction rest as [ | q rest IH ]; intros ms prev r H.
  - assert (r = []) by (cbn in H; congruence). subst r. reflexivity.
  - destruct ms as [ | [d b] ms ].
    + assert (r = q :: rest) by (cbn in H; congruence). subst r.
      reflexivity.
    + rewrite walk_cons in H.
      apply bind_Ok_inv in H. destruct H as (q' & _ & H).
      apply bind_Ok_inv in H. destruct H as (r' & Hr' & H).
      assert (r = q' :: r') by congruence. subst r.
      cbn [List.length]. f_equal. apply (IH _ _ _ Hr').
Qed.

Lemma anonymize_points_inv (p0 : GPXTrackPoint F) rest pts od ad :
  anonymize_points p0 rest = Ok (pts, od, ad) ->
  exists ms r ms',
    leg_metrics (p0 :: rest) = Ok ms
    /\ walk (at_origin p0) rest ms = Ok r
    /\ leg_metrics (at_origin p0 :: r) = Ok ms'
    /\ pts = at_origin p0 :: r
    /\ od = sum (map fst ms)
    /\ ad = sum (map (fun d => fdiv d (of_int 1000))
                     (map (fun m => fmul (fst m) (of_int 1000)) ms')).
Proof.
  unfold anonymize_points. intros H.
  apply bind_Ok_inv in H. destruct H as (ms & Hms & H).
  apply bind_Ok_inv in H. destruct H as (r & Hr & H).
  apply bind_Ok_inv in H. destruct H as (ms' & Hms' & H).
  exists ms, r, ms'.
  split; [ exact Hms | ]. split; [ exact Hr | ]. split; [ exact Hms' | ].
  repeat split; congruence.
Qed.

(** The shape of a call that returns, on the first segment. *)
Lemma anonymize_gpx_returns (gpx gpx' : GPX F) od ad :
  anonymize_gpx gpx = Ok (gpx', od, ad) ->
  exists p0 rest pts,
    first_segment_points gpx = p0 :: rest
    /\ first_segment_points gpx' = pts
    /\ anonymize_points p0 rest = Ok (pts, od, ad).
Proof.
  intros H. apply anonymize_gpx_Ok in H.
  destruct H as (track & other_tracks & segment & other_segs & p0 & rest
                 & pts & Ht & Hs & Hp & Ha & ->).
  exists p0, rest, pts. unfold first_segment_points.
  rewrite Ht, Hs. split; [ exact Hp | ]. split; [ reflexivity | exact Ha ].
Qed.

(** X5.  In every arithmetic, a call that returns gives the first
    segment as many points as it had. *)
Theorem output_length (gpx gpx' : GPX F) od ad :
  anonymize_gpx gpx = Ok (gpx', od, ad) ->
  List.length (first_segment_points gpx')
  = List.length (first_segment_points gpx).
Proof.
  intros H. apply anonymize_gpx_returns in H.
  destruct H as (p0 & rest & pts & Hp & Hp' & Ha).
  apply anonymize_points_inv in Ha.
  destruct Ha as (ms & r & ms' & _ & Hw & _ & -> & _).
  rewrite Hp, Hp'. cbn [List.length]. f_equal. apply (walk_length _ _ _ Hw).
Qed.

Lemma map_position_cons (p1 p2 : GPXTrackPoint F) rest1 rest2 :
  map position (p1 :: rest1) = map position (p2 :: rest2) ->
  position p1 = position p2 /\ map position rest1 = map position rest2.
Proof.
  cbn [map]. intros H. split; congruence.
Qed.

Lemma position_eq (p1 p2 : GPXTrackPoint F) :
  position p1 = position p2 ->
  latitude p1 = latitude p2 /\ longitude p1 = longitude p2.
Proof. unfold position. intros H. split; congruence. Qed.

Lemma leg_metrics_positions : forall pts1 pts2 : list (GPXTrackPoint F),
  map position pts1 = map position pts2 ->
  leg_metrics pts1 = leg_metrics pts2.
Proof.
  induction pts1 as [ | p1 rest1 IH ]; intros pts2 H.
  - destruct pts2; [ reflexivity | discriminate H ].
  - destruct pts2 as [ | p2 rest2 ]; [ discriminate H | ].
    apply map_position_cons in H. destruct H as [ Hp Hrest ].
    destruct rest1 as [ | q1 rest1 ]; destruct rest2 as [ | q2 rest2 ];
      try discriminate Hrest; [ reflexivity | ].
    rewrite !leg_metrics_cons2. rewrite (IH (q2 :: rest2) Hrest).
    apply map_position_cons in Hrest. destruct Hrest as [ Hq _ ].
    apply position_eq in Hp. destruct Hp as [ Hp1 Hp2 ].
    apply position_eq in Hq. destruct Hq as [ Hq1 Hq2 ].
    unfold leg_bearing. rewrite Hp1, Hp2, Hq1, Hq2. reflexivity.
Qed.

Lemma next_point_positions (prev1 prev2 q1 q2 : GPXTrackPoint F) d b :
  position prev1 = position prev2 ->
  match next_point prev1 q1 d b, next_point prev2 q2 d b with
  | Ok a1, Ok a2 => position a1 = position a2
  | Raise e1, Raise e2 => e1 = e2
  | _, _ => False
  end.
Proof.
  intros H. apply position_eq in H. destruct H as [ H1 H2 ].
  unfold next_point. rewrite H1, H2.
  destruct (destination_lat _ _ _); reflexivity.
Qed.

Lemma walk_positions : forall rest1 rest2 ms (prev1 prev2 : GPXTrackPoint F),
  position prev1 = position prev2 ->
  map position rest1 = map position rest2 ->
  match walk prev1 rest1 ms, walk prev2 rest2 ms with
  | Ok r1, Ok r2 => map position r1 = map position r2
  | Raise e1, Raise e2 => e1 = e2
  | _, _ => False
  end.
Proof.
  induction rest1 as [ | q1 rest1 IH ]; intros rest2 ms prev1 prev2 Hp Hr.
  - destruct rest2; [ reflexivity | discriminate Hr ].
  - destruct rest2 as [ | q2 rest2 ]; [ discriminate Hr | ].
    destruct ms as [ | [d b] ms ]; [ exact Hr | ].
    rewrite !walk_cons.
    pose proof (next_point_positions q1 q2 d b Hp) as Hn.
    destruct (next_point prev1 q1 d b) as [ a1 | e1 ];
      destruct (next_point prev2 q2 d b) as [ a2 | e2 ];
      try contradiction; [ | exact Hn ].
    cbn [bind]. apply map_position_cons in Hr. destruct Hr as [ _ Hr ].
    pose proof (IH rest2 ms a1 a2 Hn Hr) as Hw.
    destruct (walk a1 rest1 ms) as [ r1 | e1 ];
      destruct (walk a2 rest2 ms) as [ r2 | e2 ];
      try contradiction; [ | exact Hw ].
    cbn [bind map]. rewrite Hn, Hw. reflexivity.
Qed.

Lemma anonymize_points_positions (p1 p2 : GPXTrackPoint F) rest1 rest2 :
  map position (p1 :: rest1) = map position (p2 :: rest2) ->
  match anonymize_points p1 rest1, anonymize_points p2 rest2 with
  | Ok (pts1, od1, ad1), Ok (pts2, od2, ad2) =>
    map position pts1 = map position pts2 /\ od1 = od2 /\ ad1 = ad2
  | Raise e1, Raise e2 => e1 = e2
  | _, _ => False
  end.
Proof.
  intros H. unfold anonymize_points.
  rewrite (leg_metrics_positions _ _ H).
  destruct (leg_metrics (p2 :: rest2)) as [ ms | e ]; [ | reflexivity ].
  cbn [bind]. apply map_position_cons in H. destruct H as [ _ Hrest ].
  assert (Ho : position (at_origin p1) = position (at_origin p2))
    by reflexivity.
  pose proof (walk_positions rest1 rest2 ms Ho Hrest) as Hw.
  destruct (walk (at_origin p1) rest1 ms) as [ r1 | e1 ];
    destruct (walk (at_origin p2) rest2 ms) as [ r2 | e2 ];
    try contradiction; [ | exact Hw ].
  cbn [bind].
  assert (Hout : map position (at_origin p1 :: r1)
                 = map position (at_origin p2 :: r2))
    by (cbn [map]; rewrite Ho, Hw; reflexivity).
  rewrite (leg_metrics_positions _ _ Hout).
  destruct (leg_metrics (at_origin p2 :: r2)) as [ ms' | e ];
    [ | reflexivity ].
  cbn [bind]. repeat split. exact Hout.
Qed.

(** X6.  In every arithmetic, two files whose first segments have the
    same latitudes and longitudes, whatever their elevations, fare the
    same: both calls raise the same error, or both return, with the same
    output latitudes and longitudes and the same two totals. *)
Theorem elevation_plays_no_part (gpx1 gpx2 : GPX F) :
  first_segment_points gpx1 <> [] ->
  map position (first_segment_points gpx1)
  = map position (first_segment_points gpx2) ->
  match anonymize_gpx gpx1, anonymize_gpx gpx2 with
  | Ok (gpx1', od1, ad1), Ok (gpx2', od2, ad2) =>
    map position (first_segment_points gpx1')
    = map position (first_segment_points gpx2')
    /\ od1 = od2 /\ ad1 = ad2
  | Raise e1, Raise e2 => e1 = e2
  | _, _ => False
  end.
Proof.
  intros Hne H.
  destruct (first_segment_points gpx1) as [ | p1 rest1 ] eqn:H1;
    [ contradiction | ].
  destruct (first_segment_points gpx2) as [ | p2 rest2 ] eqn:H2;
    [ discriminate H | ].
  pose proof (@anonymize_points_positions p1 p2 rest1 rest2 H) as Hp.
  destruct (anonymize_gpx_cases gpx1 H1)
    as [ (pts1 & od1 & ad1 & Ha1 & Hg1) | Hg1 ];
    destruct (anonymize_gpx_cases gpx2 H2)
      as [ (pts2 & od2 & ad2 & Ha2 & Hg2) | Hg2 ];
    rewrite Hg1, Hg2.
  - rewrite Ha1, Ha2 in Hp. exact Hp.
  - rewrite Ha1 in Hp. unfold anonymize_gpx in Hg2.
    rewrite anonymize_body_unfold in Hg2.
    unfold first_segment_points in H2.
    destruct (tracks gpx2) as [ | t ts ]; [ discriminate | ].
    destruct (segments t) as [ | sg sgs ]; [ discriminate | ].
    rewrite H2 in Hg2.
    destruct (anonymize_points p2 rest2) as [ [[? ?] ?] | e ];
      [ discriminate Hg2 | contradiction ].
  - rewrite Ha2 in Hp. unfold anonymize_gpx in Hg1.
    rewrite anonymize_body_unfold in Hg1.
    unfold first_segment_points in H1.
    destruct (tracks gpx1) as [ | t ts ]; [ discriminate | ].
    destruct (segments t) as [ | sg sgs ]; [ discriminate | ].
    rewrite H1 in Hg1.
    destruct (anonymize_points p1 rest1) as [ [[? ?] ?] | e ];
      [ discriminate Hg1 | contradiction ].
  - reflexivity.
Qed.

Lemma leg_metrics_leg_raises : forall (pts : list (GPXTrackPoint F)) i o1 o2 e,
  nth_error pts i = Some o1 ->
  nth_error pts (S i) = Some o2 ->
  calculate_distance (latitude o1) (longitude o1)
                     (latitude o2) (longitude o2) = Raise e ->
  leg_metrics pts = Raise math_domain_error.
Proof.
  induction pts as [ | p1 rest IH ]; intros i o1 o2 e H1 H2 Hd.
  - destruct i; discriminate H1.
  - destruct rest as [ | p2 rest ]; [ destruct i; discriminate H2 | ].
    rewrite leg_metrics_cons2.
    destruct i as [ | i ].
    + cbn in H1, H2. injection H1 as <-. injection H2 as <-.
      rewrite Hd. apply calculate_distance_raises in Hd. subst e.
      reflexivity.
    + cbn [nth_error] in H1, H2.
      rewrite (IH i o1 o2 e H1 H2 Hd).
      destruct (calculate_distance (latitude p1) (longitude p1)
                  (latitude p2) (longitude p2)) as [ d | e' ] eqn:Hd'.
      * reflexivity.
      * apply calculate_distance_raises in Hd'. subst e'. reflexivity.
Qed.

(** X7.  In every arithmetic, if [calculate_distance] raises on one leg
    of the original track, the call raises [computation_error], the
    exception 400 made of that error, whatever the other legs are. *)
Theorem failing_leg_aborts (gpx : GPX F) i o1 o2 e :
  nth_error (first_segment_points gpx) i = Some o1 ->
  nth_error (first_segment_points gpx) (S i) = Some o2 ->
  calculate_distance (latitude o1) (longitude o1)
                     (latitude o2) (longitude o2) = Raise e ->
  anonymize_gpx gpx = Raise computation_error.
Proof.
  intros H1 H2 Hd.
  destruct (first_segment_points gpx) as [ | p0 rest ] eqn:Hp;
    [ destruct i; discriminate H1 | ].
  destruct (anonymize_gpx_cases gpx Hp) as [ (pts & od & ad & Ha & _) | Hg ];
    [ exfalso | exact Hg ].
  apply anonymize_points_inv in Ha.
  destruct Ha as (ms & r & ms' & Hms & _).
  rewrite (leg_metrics_leg_raises _ _ H1 H2 Hd) in Hms. discriminate Hms.
Qed.

End MoreStructure.

(** ** More on [anonymize_gpx], in exact arithmetic *)

Lemma lat_in_range_degrees (p : GPXTrackPoint R) :
  lat_in_range p -> -90 <= latitude p <= 90.
Proof.
  unfold lat_in_range, radians. pose proof PI_RGT_0 as HPI. intros [H1 H2].
  split; nra.
Qed.

Lemma walk_lat_in_range : forall rest (o prev : GPXTrackPoint R) ms r,
  leg_metrics (o :: rest) = Ok ms ->
  walk prev rest ms = Ok r ->
  Forall lat_in_range r.
Proof.
  induction rest as [ | q rest IH ]; intros o prev ms r Hms Hw.
  - assert (r = []) by (cbn in Hw; congruence). subst r. constructor.
  - destruct (leg_metrics_exact o q rest) as (ms' & Hms' & Hms'').
    assert (Hms_eq : ms = (6371 * leg_angle o q, leg_bearing o q) :: ms')
      by congruence.
    subst ms. rewrite walk_cons, next_point_exact in Hw. cbn [bind] in Hw.
    apply bind_Ok_inv in Hw. destruct Hw as (r' & Hr' & Hw).
    assert (Hr : r = mkPoint
              (degrees (dest_lat (radians (latitude prev))
                          (angular_dist (6371 * leg_angle o q))
                          (leg_bearing o q)))
              (degrees (radians (longitude prev)
                        + dest_dlon (radians (latitude prev))
                            (angular_dist (6371 * leg_angle o q))
                            (leg_bearing o q)))
              (Some (elevation_or_0 q)) :: r') by congruence.
    subst r. constructor.
    + unfold lat_in_range. cbn [latitude]. rewrite radians_degrees.
      apply dest_lat_bound.
    + apply (@IH q _ ms' r' Hms' Hr').
Qed.

Lemma anonymize_gpx_points (gpx gpx' : GPX R) od ad :
  anonymize_gpx gpx = Ok (gpx', od, ad) ->
  exists p0 rest ms r ms',
    first_segment_points gpx = p0 :: rest
    /\ first_segment_points gpx' = at_origin p0 :: r
    /\ leg_metrics (p0 :: rest) = Ok ms
    /\ walk (at_origin p0) rest ms = Ok r
    /\ leg_metrics (at_origin p0 :: r) = Ok ms'
    /\ od = sum (map fst ms)
    /\ ad = sum (map (fun d => d / 1000) (map (fun m => fst m * 1000) ms')).
Proof.
  intros H. apply anonymize_gpx_returns in H.
  destruct H as (p0 & rest & pts & Hp & Hp' & Ha).
  apply anonymize_points_inv in Ha.
  destruct Ha as (ms & r & ms' & Hms & Hw & Hms' & -> & Hod & Had).
  exists p0, rest, ms, r, ms'. repeat split; assumption.
Qed.

Lemma at_origin_in_range (p : GPXTrackPoint R) : lat_in_range (at_origin p).
Proof.
  unfold lat_in_range.
  cbn [at_origin set_longitude set_latitude latitude of_int RFloat].
  rewrite radians_0. pose proof PI_RGT_0. lra.
Qed.

Lemma latitudes_in_range (gpx gpx' : GPX R) od ad :
  anonymize_gpx gpx = Ok (gpx', od, ad) ->
  Forall (fun a => -90 <= latitude a <= 90) (first_segment_points gpx').
Proof.
  intros H. apply anonymize_gpx_points in H.
  destruct H as (p0 & rest & ms & r & ms' & _ & -> & Hms & Hw & _).
  constructor.
  - apply lat_in_range_degrees, at_origin_in_range.
  - pose proof (@walk_lat_in_range rest p0 (at_origin p0) ms r Hms Hw)
      as Hall.
    apply Forall_impl with (2 := Hall).
    intros a. apply lat_in_range_degrees.
Qed.


Lemma walk_metrics : forall rest (o prev : GPXTrackPoint R) ms r,
  leg_metrics (o :: rest) = Ok ms ->
  lat_in_range prev ->
  walk prev rest ms = Ok r ->
  exists ms',
    leg_metrics (prev :: r) = Ok ms' /\ map fst ms' = map fst ms.
Proof.
  induction rest as [ | q rest IH ]; intros o prev ms r Hms Hprev Hw.
  - assert (r = []) by (cbn in Hw; congruence). subst r.
    assert (ms = []) by (cbn in Hms; congruence). subst ms.
    exists []. split; reflexivity.
  - destruct (leg_metrics_exact o q rest) as (ms1 & Hms1 & Hms'').
    assert (Hms_eq : ms = (6371 * leg_angle o q, leg_bearing o q) :: ms1)
      by congruence.
    subst ms. rewrite walk_cons in Hw.
    apply bind_Ok_inv in Hw. destruct Hw as (q' & Hq' & Hw).
    apply bind_Ok_inv in Hw. destruct Hw as (r1 & Hr1 & Hw).
    assert (r = q' :: r1) by congruence. subst r.
    destruct (@next_point_leg o q prev q' Hprev Hq') as (Hq'r & Hd & _).
    destruct (IH q q' ms1 r1 Hms1 Hq'r Hr1) as (ms1' & Hms1' & Hfst).
    exists ((6371 * leg_angle o q, leg_bearing prev q') :: ms1').
    split.
    + rewrite leg_metrics_cons2, Hd, calculate_distance_central_angle.
      cbn [bind]. rewrite Hms1'. reflexivity.
    + cbn [map fst]. rewrite Hfst. reflexivity.
Qed.

Lemma meters_and_back (ms : list (R * R)) :
  map (fun d => d / 1000) (map (fun m => fst m * 1000) ms) = map fst ms.
Proof.
  rewrite map_map. apply map_ext. intros m. field.
Qed.

Lemma totals_equal (gpx gpx' : GPX R) od ad :
  anonymize_gpx gpx = Ok (gpx', od, ad) -> ad = od.
Proof.
  intros H. apply anonymize_gpx_points in H.
  destruct H as (p0 & rest & ms & r & ms' & _ & _ & Hms & Hw & Hms' & -> & ->).
  destruct (@walk_metrics rest p0 (at_origin p0) ms r Hms
              (at_origin_in_range p0) Hw) as (ms2 & Hms2 & Hfst).
  assert (ms2 = ms') by congruence. subst ms2.
  rewrite meters_and_back, Hfst. reflexivity.
Qed.


Lemma calculate_distance_shift lat1 lon1 lat2 lon2 c :
  calculate_distance lat1 (lon1 + c) lat2 (lon2 + c)
  = calculate_distance lat1 lon1 lat2 lon2.
Proof.
  rewrite !calculate_distance_central_angle. do 2 f_equal.
  apply central_angle_cos_eq. unfold central_cos.
  replace (radians (lon2 + c) - radians (lon1 + c))
    with (radians lon2 - radians lon1) by (unfold radians; ring).
  reflexivity.
Qed.

Lemma leg_bearing_shift (p1 p2 : GPXTrackPoint R) c :
  leg_bearing (shift_longitude c p1) (shift_longitude c p2)
  = leg_bearing p1 p2.
Proof.
  rewrite !leg_bearing_rad. unfold bearing_rad, shift_longitude.
  cbn [latitude longitude].
  replace (radians (longitude p2 + c) - radians (longitude p1 + c))
    with (radians (longitude p2) - radians (longitude p1))
    by (unfold radians; ring).
  reflexivity.
Qed.

Lemma leg_metrics_shift c : forall pts : list (GPXTrackPoint R),
  leg_metrics (map (shift_longitude c) pts) = leg_metrics pts.
Proof.
  induction pts as [ | p1 rest IH ]; [ reflexivity | ].
  destruct rest as [ | p2 rest ]; [ reflexivity | ].
  cbn [map] in *. rewrite !leg_metrics_cons2, IH, leg_bearing_shift.
  unfold shift_longitude at 1 2 3 4. cbn [latitude longitude].
  rewrite calculate_distance_shift. reflexivity.
Qed.

Lemma walk_shift c : forall rest ms (prev : GPXTrackPoint R),
  List.length ms = List.length rest ->
  walk prev (map (shift_longitude c) rest) ms = walk prev rest ms.
Proof.
  induction rest as [ | q rest IH ]; intros ms prev Hlen; [ reflexivity | ].
  destruct ms as [ | [d b] ms ]; [ discriminate Hlen | ].
  cbn [map]. rewrite !walk_cons.
  replace (next_point prev (shift_longitude c q) d b)
    with (next_point prev q d b) by reflexivity.
  apply bind_ext. intros q'. rewrite IH by (simpl in Hlen; lia).
  reflexivity.
Qed.

Lemma anonymize_points_shift c (p0 : GPXTrackPoint R) rest :
  anonymize_points (shift_longitude c p0) (map (shift_longitude c) rest)
  = anonymize_points p0 rest.
Proof.
  unfold anonymize_points.
  change (shift_longitude c p0 :: map (shift_longitude c) rest)
    with (map (shift_longitude c) (p0 :: rest)).
  rewrite leg_metrics_shift.
  destruct (leg_metrics (p0 :: rest)) as [ ms | e ] eqn:Hms;
    [ | reflexivity ].
  cbn [bind].
  change (at_origin (shift_longitude c p0)) with (at_origin p0).
  rewrite walk_shift; [ reflexivity | ].
  apply leg_metrics_length in Hms. simpl in Hms. lia.
Qed.


Lemma elevation_or_0_of_Some (p : GPXTrackPoint R) e :
  elevation p = Some e -> elevation_or_0 p = e.
Proof.
  unfold elevation_or_0. intros ->.
  cbn [truthy of_int RFloat].
  destruct (nonzero e) eqn:Hn; [ reflexivity | ].
  unfold nonzero in Hn.
  destruct (Req_dec_T e 0) as [ -> | _ ]; [ reflexivity | discriminate Hn ].
Qed.

Lemma walk_again : forall rest (o prev : GPXTrackPoint R) ms r,
  leg_metrics (o :: rest) = Ok ms ->
  lat_in_range prev ->
  walk prev rest ms = Ok r ->
  Forall off_pole (prev :: r) ->
  exists ms2,
    leg_metrics (prev :: r) = Ok ms2
    /\ map fst ms2 = map fst ms
    /\ walk prev r ms2 = Ok r.
Proof.
  induction rest as [ | q rest IH ]; intros o prev ms r Hms Hprev Hw Hoff.
  - assert (r = []) by (cbn in Hw; congruence). subst r.
    assert (ms = []) by (cbn in Hms; congruence). subst ms.
    exists []. repeat split.
  - destruct (leg_metrics_exact o q rest) as (ms1 & Hms1 & Hms'').
    assert (Hms_eq : ms = (6371 * leg_angle o q, leg_bearing o q) :: ms1)
      by congruence.
    subst ms. rewrite walk_cons in Hw.
    apply bind_Ok_inv in Hw. destruct Hw as (q' & Hq' & Hw).
    apply bind_Ok_inv in Hw. destruct Hw as (r1 & Hr1 & Hw).
    assert (r = q' :: r1) by congruence. subst r.
    destruct (@next_point_leg o q prev q' Hprev Hq') as (Hq'r & Hd & Hb).
    inversion Hoff as [ | ? ? Hoff_prev Hoff_rest ]; subst.
    destruct (IH q q' ms1 r1 Hms1 Hq'r Hr1 Hoff_rest)
      as (ms2 & Hms2 & Hfst & Hw2).
    assert (Hangle : leg_angle prev q' = leg_angle o q).
    { rewrite !calculate_distance_central_angle in Hd.
      fold (leg_angle prev q') in Hd. fold (leg_angle o q) in Hd.
      assert (6371 * leg_angle prev q' = 6371 * leg_angle o q)
        by congruence.
      lra. }
    assert (Hbearing : leg_bearing prev q' = leg_bearing o q).
    { apply Hb. destruct Hoff_prev as [ H90 Hm90 ].
      apply cos_radians_nonzero; assumption. }
    exists ((6371 * leg_angle prev q', leg_bearing prev q') :: ms2).
    split; [ | split ].
    + rewrite leg_metrics_cons2, calculate_distance_central_angle.
      cbn [bind]. rewrite Hms2. reflexivity.
    + cbn [map fst]. rewrite Hfst, Hangle. reflexivity.
    + rewrite walk_cons, Hangle, Hbearing.
      assert (Hq'' : next_point prev q' (6371 * leg_angle o q)
                       (leg_bearing o q) = Ok q').
      { rewrite next_point_exact in *.
        rewrite (@elevation_or_0_of_Some q' (elevation_or_0 q)).
        - exact Hq'.
        - assert (Hq'eq : q' = mkPoint
              (degrees (dest_lat (radians (latitude prev))
                          (angular_dist (6371 * leg_angle o q))
                          (leg_bearing o q)))
              (degrees (radians (longitude prev)
                        + dest_dlon (radians (latitude prev))
                            (angular_dist (6371 * leg_angle o q))
                            (leg_bearing o q)))
              (Some (elevation_or_0 q))) by congruence.
          rewrite Hq'eq. reflexivity. }
      rewrite Hq''. cbn [bind]. rewrite Hw2. reflexivity.
Qed.


(** ** The verification pass and its log *)

Section LoggedFacts.

Context {F : Type} {PF : PyFloat F} {PO : PyFloatOrd F}.

Local Open Scope py_scope.

(** The logged body without its loops. *)
Lemma anonymize_body_logged_unfold (gpx : GPX F) p0 rest :
  first_segment_points gpx = p0 :: rest ->
  anonymize_body_logged gpx =
  bind (leg_metrics (p0 :: rest)) (fun ms =>
  bind (walk (at_origin p0) rest ms) (fun r =>
  bind (leg_metrics (at_origin p0 :: r)) (fun ms' =>
    let od := sum (map fst ms) in
    let ads := map (fun m => fst m * of_int 1000) ms' in
    let ad := sum (map (fun d => d / of_int 1000) ads) in
    Ok (mkGPX (mkTrack (mkSegment (at_origin p0 :: r)
                          :: other_segments gpx) :: tl (tracks gpx)),
        od, ad,
        precision_log (map (fun m => fst m * of_int 1000) ms) ads od ad)))).
Proof.
  unfold first_segment_points, other_segments, anonymize_body_logged.
  destruct (tracks gpx) as [ | track other_tracks ]; [ discriminate | ].
  destruct (segments track) as [ | segment other_segs ]; [ discriminate | ].
  intros ->. cbn [tl].
  rewrite metrics_loop.
  destruct (leg_metrics (p0 :: rest)) as [ ms | e ] eqn:Hms;
    [ | reflexivity ].
  cbn [bind original_distances segment_distances segment_bearings app
       update_at index nth_error replace_nth].
  change (mkMetrics _ _ _) with (metrics_of ms).
  cbn [map].
  change (set_longitude (of_int 0) (set_latitude (of_int 0) p0))
    with (at_origin p0).
  rewrite length_map, reconstruct_loop
    by (apply leg_metrics_length in Hms; simpl in Hms; lia).
  rewrite !bind_assoc.
  destruct (walk (at_origin p0) rest ms) as [ r | e ]; [ | reflexivity ].
  cbn [bind]. rewrite verify_loop.
  rewrite !bind_assoc.
  destruct (leg_metrics (at_origin p0 :: r)) as [ ms' | e ];
    [ | reflexivity ].
  reflexivity.
Qed.

End LoggedFacts.

Lemma precision_step_same (i : nat) (x : R) :
  precision_step (0, []) (i, (x, x)) = (0, []).
Proof.
  unfold precision_step. cbn [fabs fgt fsub of_int RFloat ROrd].
  rewrite Rminus_diag, Rabs_R0. unfold Rgtb.
  destruct (Rlt_dec 0 0); [ lra | ].
  destruct (Rlt_dec 1 0); [ lra | reflexivity ].
Qed.

Lemma verify_precision_same (l : list R) :
  verify_precision l l = (0, []).
Proof.
  unfold verify_precision, enumerate. cbn [of_int RFloat].
  generalize 0%nat as k.
  induction l as [ | x l IH ]; intros k; [ reflexivity | ].
  cbn [combine List.length seq fold_left].
  rewrite precision_step_same. apply IH.
Qed.

Lemma precision_log_same (l : list R) (total : R) :
  precision_log l l total total = [MaximumDifference 0].
Proof.
  unfold precision_log. rewrite verify_precision_same.
  cbn [fabs fgt fsub float_0_001 RFloat ROrd app].
  rewrite Rminus_diag, Rabs_R0. unfold Rgtb.
  destruct (Rlt_dec 0.001 0); [ lra | reflexivity ].
Qed.


Section LogAgrees.

Context {F : Type} {PF : PyFloat F} {PO : PyFloatOrd F}.


End LogAgrees.

(** ** Facts on the endpoints *)

Lemma substring_all (s : string) : substring 0 (String.length s) s = s.
Proof. induction s as [ | c s IH ]; simpl; [ | rewrite IH ]; reflexivity. Qed.

Lemma substring_append_r (p s : string) :
  substring (String.length p) (String.length s) (p ++ s)%string = s.
Proof. induction p as [ | c p IH ]; simpl; [ apply substring_all | exact IH ]. Qed.

Lemma string_length_append (p s : string) :
  String.length (p ++ s)%string = (String.length p + String.length s)%nat.
Proof. induction p as [ | c p IH ]; simpl; [ | rewrite IH ]; reflexivity. Qed.

Lemma substring_split : forall (s : string) (k : nat),
  (k <= String.length s)%nat ->
  s = (substring 0 k s ++ substring k (String.length s - k) s)%string.
Proof.
  induction s as [ | c s IH ]; intros k Hk.
  - simpl in Hk. assert (k = 0%nat) by lia. subst k. reflexivity.
  - destruct k as [ | k ].
    + cbn [substring append]. rewrite Nat.sub_0_r.
      change (String c s = substring 0 (String.length (String c s))
                             (String c s)).
      symmetry. apply substring_all.
    + simpl in Hk. cbn [substring append String.length Nat.sub].
      f_equal. apply IH. lia.
Qed.

(** [endswith] is Python's: [s] ends with [suffix] when it is some text
    followed by [suffix]. *)
Lemma endswith_spec (s suffix : string) :
  endswith s suffix = true <-> exists stem, s = (stem ++ suffix)%string.
Proof.
  unfold endswith. split.
  - intros H. apply andb_true_iff in H. destruct H as [ Hle Heq ].
    apply Nat.leb_le in Hle. apply String.eqb_eq in Heq.
    exists (substring 0 (String.length s - String.length suffix) s).
    rewrite (@substring_split s
               (String.length s - String.length suffix)%nat) at 1 by lia.
    f_equal.
    replace (String.length s - (String.length s - String.length suffix))%nat
      with (String.length suffix) by lia.
    exact Heq.
  - intros (stem & ->). rewrite string_length_append.
    apply andb_true_iff. split.
    + apply Nat.leb_le. lia.
    + replace (String.length stem + String.length suffix
               - String.length suffix)%nat
        with (String.length stem) by lia.
      rewrite substring_append_r. apply String.eqb_refl.
Qed.

Section EndpointFacts.

Context {F : Type} {PF : PyFloat F}.

Variable parse : string -> result string (GPX F).
Variable to_xml : GPX F -> string.
Variable decode : list Byte.byte -> result string string.
Variable str_http : HTTPException -> string.
Variable splitext_root : string -> string.

(** X14.  Whatever the libraries do and whatever is uploaded, a file
    name that does not end in .gpx makes both handlers raise the
    exception 500 whose detail is the text of the exception 400 raised
    at line 193 (or 232). *)
Theorem wrong_extension (name : string) content elapsed temp_file_path :
  (forall stem, name <> (stem ++ ".gpx")%string) ->
  anonymize_gpx_file parse to_xml decode str_http name content elapsed
  = Raise (mkHTTPException 500
             (str_http (mkHTTPException 400 "File must be a GPX file")))
  /\ anonymize_gpx_file_download parse to_xml decode str_http splitext_root
       name content temp_file_path
     = Raise (mkHTTPException 500
                (str_http (mkHTTPException 400 "File must be a GPX file"))).
Proof.
  intros Hname.
  assert (He : endswith name ".gpx" = false).
  { destruct (endswith name ".gpx") eqn:E; [ | reflexivity ].
    apply endswith_spec in E. destruct E as (stem & E).
    destruct (Hname stem E). }
  unfold anonymize_gpx_file, anonymize_gpx_file_download, upload.
  rewrite He. split; reflexivity.
Qed.

(** X15.  Every exception that leaves either handler has status 500.
    In particular an exception of [anonymize_gpx], which has status
    400, leaves both handlers as an exception 500 carrying its text. *)
Theorem handlers_answer_500 (name : string) content elapsed temp_file_path e :
  (anonymize_gpx_file parse to_xml decode str_http name content elapsed
   = Raise e ->
   status_code e = 500%Z)
  /\ (anonymize_gpx_file_download parse to_xml decode str_http splitext_root
        name content temp_file_path
      = Raise e ->
      status_code e = 500%Z)
  /\ (forall text e400,
        (exists stem, name = (stem ++ ".gpx")%string) ->
        decode content = Ok text ->
        anonymize_gpx_text parse to_xml text = Raise e400 ->
        anonymize_gpx_file parse to_xml decode str_http name content elapsed
        = Raise (mkHTTPException 500 (str_http e400))
        /\ anonymize_gpx_file_download parse to_xml decode str_http
             splitext_root name content temp_file_path
           = Raise (mkHTTPException 500 (str_http e400))).
Proof.
  unfold anonymize_gpx_file, anonymize_gpx_file_download, internal_error.
  split; [ | split ].
  - destruct (bind (upload _ _ _ name content) _) as [ r | e' ];
      [ discriminate | ].
    intros H. injection H as <-. reflexivity.
  - destruct (bind (upload _ _ _ name content) _) as [ r | e' ];
      [ discriminate | ].
    intros H. injection H as <-. reflexivity.
  - intros text e400 Hname Hd Ha.
    apply endswith_spec in Hname.
    unfold upload. rewrite Hname, Hd, Ha. split; reflexivity.
Qed.


End EndpointFacts.


(** ** An arithmetic in which a leg fails *)

Lemma overshoot_antipodal_raises :
  calculate_distance (PF := OvershootFloat) 0 0 0 180
  = Raise math_domain_error.
Proof.
  assert (Hu : 0 < ulp52).
  { unfold ulp52. apply Rinv_0_lt_compat. apply pow_lt. lra. }
  assert (Ha : haversine_a (PF := OvershootFloat) (radians 0) (radians 0)
                 (radians 0) (radians 180)
               = (1 + ulp52) * (1 + ulp52)).
  { unfold haversine_a.
    cbn [fadd fsub fmul fdiv fpow2 of_int math_sin math_cos OvershootFloat].
    unfold sin_overshoot.
    rewrite radians_0, radians_180, Rminus_diag, Rminus_0_r.
    replace (0 / 2) with 0 by field.
    rewrite sin_0, cos_0, sin_PI2. ring. }
  unfold calculate_distance.
  cbn [math_radians math_sqrt math_asin of_int fmul OvershootFloat].
  rewrite Ha. rewrite checked_sqrt_nonneg by nra.
  rewrite sqrt_square by lra. cbn [domain bind].
  unfold checked_asin.
  destruct (Rle_dec (-1) (1 + ulp52)); [ | lra ].
  destruct (Rle_dec (1 + ulp52) 1); [ lra | reflexivity ].
Qed.

(** ** The hypotheses above can be met *)

Lemma output_length_witness :
  anonymize_gpx two_tracks
  = Ok (mkGPX [mkTrack [mkSegment [mkPoint 0 0 (Some 35)];
                        mkSegment [mkPoint 48.8570 2.3530 (Some 40);
                                   mkPoint 48.8580 2.3540 None]];
               mkTrack [mkSegment [mkPoint 10 20 (Some 5)]]], 0, 0)
  /\ List.length
       (first_segment_points
          (mkGPX [mkTrack [mkSegment [mkPoint 0 0 (Some 35)];
                           mkSegment [mkPoint 48.8570 2.3530 (Some 40);
                                      mkPoint 48.8580 2.3540 None]];
                  mkTrack [mkSegment [mkPoint 10 20 (Some 5)]]]))
     = List.length (first_segment_points two_tracks).
Proof.
  split; [ reflexivity | ].
  exact (@output_length R RFloat two_tracks _ 0 0 eq_refl).
Defined.

Lemma elevation_plays_no_part_witness :
  first_segment_points (one_segment paris_track) <> []
  /\ map position (first_segment_points (one_segment paris_track))
     = map position (first_segment_points (one_segment paris_bare))
  /\ match anonymize_gpx (one_segment paris_track),
           anonymize_gpx (one_segment paris_bare) with
     | Ok (gpx1', od1, ad1), Ok (gpx2', od2, ad2) =>
       map position (first_segment_points gpx1')
       = map position (first_segment_points gpx2')
       /\ od1 = od2 /\ ad1 = ad2
     | Raise e1, Raise e2 => e1 = e2
     | _, _ => False
     end.
Proof.
  assert (H1 : first_segment_points (one_segment paris_track) <> [])
    by discriminate.
  split; [ exact H1 | ]. split; [ reflexivity | ].
  exact (@elevation_plays_no_part R RFloat (one_segment paris_track)
           (one_segment paris_bare) H1 eq_refl).
Defined.

Lemma failing_leg_aborts_witness :
  nth_error (first_segment_points (one_segment antipodal_track)) 0
  = Some (mkPoint 0 0 None)
  /\ nth_error (first_segment_points (one_segment antipodal_track)) 1
     = Some (mkPoint 0 180 None)
  /\ calculate_distance (PF := OvershootFloat) 0 0 0 180
     = Raise math_domain_error
  /\ anonymize_gpx (PF := OvershootFloat) (one_segment antipodal_track)
     = Raise computation_error.
Proof.
  split; [ reflexivity | ]. split; [ reflexivity | ].
  split; [ exact overshoot_antipodal_raises | ].
  exact (@failing_leg_aborts R OvershootFloat (one_segment antipodal_track)
           0 (mkPoint 0 0 None) (mkPoint 0 180 None) math_domain_error
           eq_refl eq_refl overshoot_antipodal_raises).
Defined.






Lemma not_a_gpx_name : forall stem, "track.txt"%string <> (stem ++ ".gpx")%string.
Proof.
  intros stem H.
  assert (E : endswith "track.txt" ".gpx" = true)
    by (apply endswith_spec; exists stem; exact H).
  discriminate E.
Qed.

Lemma wrong_extension_witness :
  (forall stem, "track.txt"%string <> (stem ++ ".gpx")%string)
  /\ anonymize_gpx_file one_point_parser constant_xml ascii_decode
       detail_only "track.txt" [] 0
     = Raise (mkHTTPException 500
                (detail_only (mkHTTPException 400 "File must be a GPX file")))
  /\ anonymize_gpx_file_download one_point_parser constant_xml ascii_decode
       detail_only drop_extension "track.txt" [] "/tmp/tmp0.gpx"
     = Raise (mkHTTPException 500
                (detail_only (mkHTTPException 400 "File must be a GPX file"))).
Proof.
  split; [ exact not_a_gpx_name | ].
  exact (@wrong_extension R RFloat one_point_parser constant_xml ascii_decode
           detail_only drop_extension "track.txt" [] 0 "/tmp/tmp0.gpx"
           not_a_gpx_name).
Defined.



Lemma handlers_answer_500_witness :
  (exists stem, "ride.gpx"%string = (stem ++ ".gpx")%string)
  /\ ascii_decode [] = Ok ""%string
  /\ anonymize_gpx_text empty_file_parser constant_xml ""
     = Raise no_tracks_failure
  /\ anonymize_gpx_file empty_file_parser constant_xml ascii_decode
       detail_only "ride.gpx" [] 0
     = Raise (mkHTTPException 500 (detail_only no_tracks_failure))
  /\ anonymize_gpx_file_download empty_file_parser constant_xml ascii_decode
       detail_only drop_extension "ride.gpx" [] "/tmp/tmp0.gpx"
     = Raise (mkHTTPException 500 (detail_only no_tracks_failure)).
Proof.
  assert (H : exists stem, "ride.gpx"%string = (stem ++ ".gpx")%string)
    by (exists "ride"%string; reflexivity).
  split; [ exact H | ]. split; [ reflexivity | ]. split; [ reflexivity | ].
  exact (proj2 (proj2 (@handlers_answer_500 R RFloat empty_file_parser
                         constant_xml ascii_decode detail_only drop_extension
                         "ride.gpx" [] 0 "/tmp/tmp0.gpx" no_tracks_failure))
           ""%string no_tracks_failure H eq_refl eq_refl).
Defined.

